(** * img-converter: the HEIC batch pipeline of [App.jsx]

    A shallow embedding of the React component [App] and of the handlers
    it defines ([handleFileChange], [convertImages], [downloadAllImages],
    the "Clear All" click handler and the clean-up effect), followed by
    the properties of the pipeline.

    The repository holds two revisions of the component.  The top level
    of this file embeds the revision with thumbnails, the clean-up effect
    and the "Clear All" button; [Module Legacy] embeds the older
    [src/App.jsx], which has none of them. *)

From Stdlib Require Import List String Ascii ZArith Lia Bool Arith QArith.
From Stdlib Require Import DecimalString.
Import ListNotations.

Local Open Scope string_scope.
Local Open Scope Z_scope.

(** ** Strings *)

(** A template literal [`${n}`] of an integer. *)
Definition string_of_Z (z : Z) : string :=
  NilZero.string_of_int (Z.to_int z).

(** [s.endsWith(suffix)], by scanning for the position where the rest of
    [s] is [suffix]. *)
Fixpoint ends_with (suffix s : string) : bool :=
  if String.eqb s suffix then true
  else match s with
       | EmptyString => false
       | String _ rest => ends_with suffix rest
       end.

(** Case folding of the [i] flag.  Without the [u] flag a code unit
    outside ASCII never folds onto an ASCII letter, so only [A]-[Z]
    move. *)
Definition fold_case (c : ascii) : ascii :=
  let n := nat_of_ascii c in
  if ((65 <=? n) && (n <=? 90))%nat then ascii_of_nat (n + 32) else c.

Fixpoint fold_case_string (s : string) : string :=
  match s with
  | EmptyString => EmptyString
  | String c rest => String (fold_case c) (fold_case_string rest)
  end.

(** ** The data model *)

Definition URL := nat.

(** A [File]: display name, declared media type, byte length. *)
Record File := mkFile {
  file_name : string;
  file_type : string;
  file_size : Z
}.

(** A [Blob] returned by the codec or by the archive writer. *)
Record Blob := mkBlob {
  blob_type : string;
  blob_size : Z
}.

(** The values of the [<select id="outputFormat">]. *)
Inductive OutputFormat := jpeg | png.

Definition format_string (f : OutputFormat) : string :=
  match f with
  | jpeg => "jpeg"
  | png => "png"
  end.

(** An element of [heicFiles]: [{ file, thumbnail }], where [thumbnail]
    is [null] when the preview could not be made. *)
Record AcceptedItem := mkAccepted {
  file : File;
  thumbnail : option URL
}.

(** An element of [convertedImages]. *)
Record ConvertedItem := mkConverted {
  id : string;
  name : string;
  url : URL;
  blob : Blob;
  originalFile : File
}.

(** A JavaScript array: its identity and its elements.  React compares
    the dependencies of an effect with [Object.is], that is by
    identity. *)
Record JsArray (A : Type) := mkArray {
  ref : nat;
  items : list A
}.
Arguments mkArray {A} _ _.
Arguments ref {A} _.
Arguments items {A} _.

(** The five [useState] cells of the component. *)
Record AppState := mkState {
  heicFiles : JsArray AcceptedItem;
  convertedImages : JsArray ConvertedItem;
  outputFormat : OutputFormat;
  loading : bool;
  error : option string
}.

Definition setHeicFiles (a : JsArray AcceptedItem) (s : AppState) : AppState :=
  mkState a (convertedImages s) (outputFormat s) (loading s) (error s).

Definition setConvertedImages (a : JsArray ConvertedItem) (s : AppState) : AppState :=
  mkState (heicFiles s) a (outputFormat s) (loading s) (error s).

Definition setOutputFormat (f : OutputFormat) (s : AppState) : AppState :=
  mkState (heicFiles s) (convertedImages s) f (loading s) (error s).

Definition setLoading (b : bool) (s : AppState) : AppState :=
  mkState (heicFiles s) (convertedImages s) (outputFormat s) b (error s).

Definition setError (e : option string) (s : AppState) : AppState :=
  mkState (heicFiles s) (convertedImages s) (outputFormat s) (loading s) e.

(** What the page shows of a state: the contents of the cells, without
    the identities of the arrays. *)
Definition view (s : AppState) :
  list AcceptedItem * list ConvertedItem * OutputFormat * bool * option string :=
  (items (heicFiles s), items (convertedImages s), outputFormat s, loading s, error s).

(** ** The browser: object URLs, array allocation, the clock *)

(** The calls the component makes on the browser, in order. *)
Inductive Event :=
| Create (u : URL)                      (* URL.createObjectURL(...) returned u *)
| Revoke (u : option URL)               (* URL.revokeObjectURL(u), u may be null *)
| Click (href : URL) (download : string).  (* link.click() *)

Record World := mkWorld {
  next_url : nat;       (* object URLs handed out so far *)
  next_ref : nat;       (* arrays allocated so far *)
  clock_reads : nat;    (* calls of Date.now() so far *)
  log : list Event
}.

Definition M (A : Type) : Type := World -> A * World.

Definition ret {A} (a : A) : M A := fun w => (a, w).

Definition bind {A B} (m : M A) (k : A -> M B) : M B :=
  fun w => let (a, w') := m w in k a w'.

Declare Scope browser_scope.
Delimit Scope browser_scope with browser.
Notation "x <- m ;; k" := (bind m (fun x => k))
  (at level 61, m at next level, right associativity) : browser_scope.
Notation "m ;; k" := (bind m (fun _ => k))
  (at level 61, right associativity) : browser_scope.
Local Open Scope browser_scope.

Definition add_log (w : World) (l : list Event) : World :=
  mkWorld (next_url w) (next_ref w) (clock_reads w) (log w ++ l).

Definition emit (e : Event) : M unit := fun w => (tt, add_log w [e]).

(** [URL.createObjectURL(blob)]: a URL never handed out before. *)
Definition createObjectURL : M URL :=
  fun w => (next_url w,
            mkWorld (S (next_url w)) (next_ref w) (clock_reads w)
                    (log w ++ [Create (next_url w)])).

Definition revokeObjectURL (u : option URL) : M unit := emit (Revoke u).

(** An array literal or a spread: a new array. *)
Definition alloc (w : World) : World :=
  mkWorld (next_url w) (S (next_ref w)) (clock_reads w) (log w).

Definition new_array {A} (l : list A) : M (JsArray A) :=
  fun w => (mkArray (next_ref w) l, alloc w).

(** [arr.forEach(f)] for an effectful [f]. *)
Fixpoint forEach {A} (f : A -> M unit) (l : list A) : M unit :=
  match l with
  | [] => ret tt
  | x :: rest => f x ;; forEach f rest
  end.

(** [Promise.all(arr.map(f))].  The result keeps the order of the list.
    Each callback does its calls in one go when its own [await] resumes,
    and the callbacks can resume in any order; they are taken here in
    list order, which is one of these orders.  So the statements below
    say which URLs a call makes and keeps, not which of the items of one
    call holds which of them. *)
Fixpoint mapM {A B} (f : A -> M B) (l : list A) : M (list B) :=
  match l with
  | [] => ret []
  | x :: rest => y <- f x ;; ys <- mapM f rest ;; ret (y :: ys)
  end.

Definition count_creates (l : list Event) : nat :=
  List.length (filter (fun e => match e with Create _ => true | _ => false end) l).

Definition count_revokes (l : list Event) : nat :=
  List.length (filter (fun e => match e with Revoke _ => true | _ => false end) l).

(** ** Validation: the callback of [acceptedFiles.filter] *)

Definition MAX_FILE_SIZE_MB : Z := 25.

Definition allowed_types : list string :=
  ["image/heic"; "image/heif"; "image/x-heic"; "image/x-heif"].

(** [arr.includes(s)] on strings. *)
Definition includes (l : list string) (s : string) : bool :=
  existsb (String.eqb s) l.

Inductive Verdict :=
| Accepted
| Rejected (reason : string).

Definition validate (f : File) : Verdict :=
  if negb (includes allowed_types (file_type f)) then
    Rejected ("Unsupported file type: " ++ file_name f
              ++ ". Only HEIC/HEIF files are allowed.")
  else if file_size f >? MAX_FILE_SIZE_MB * 1024 * 1024 then
    Rejected ("File " ++ file_name f ++ " is too large. Max file size is "
              ++ string_of_Z MAX_FILE_SIZE_MB ++ "MB.")
  else Accepted.

Definition accepts (f : File) : bool :=
  match validate f with
  | Accepted => true
  | Rejected _ => false
  end.

(** The filter: the files kept, and the error cell after the [setError]
    calls of the rejected ones (the last call wins). *)
Fixpoint filter_files (fs : list File) (err : option string)
  : list File * option string :=
  match fs with
  | [] => ([], err)
  | f :: rest =>
      match validate f with
      | Accepted => let (kept, err') := filter_files rest err in (f :: kept, err')
      | Rejected reason => filter_files rest (Some reason)
      end
  end.

(** ** Output names: [name.replace(/\.(heic|heif)$/i, `.${outputFormat}`)] *)

(** The pattern matched against the whole of [s]: because of the [$],
    a match that starts at some position takes the rest of the name. *)
Definition is_source_ext (s : string) : bool :=
  let t := fold_case_string s in
  String.eqb t ".heic" || String.eqb t ".heif".

(** [String.prototype.replace] with that pattern: the leftmost position
    where it matches is replaced, and nothing follows a match. *)
Fixpoint replace_source_ext (s replacement : string) : string :=
  if is_source_ext s then replacement
  else match s with
       | EmptyString => EmptyString
       | String c rest => String c (replace_source_ext rest replacement)
       end.

Definition output_name (fmt : OutputFormat) (original : string) : string :=
  replace_source_ext original ("." ++ format_string fmt).

(** Whether a name ends in the source extension, in any letter case. *)
Fixpoint has_source_ext (s : string) : bool :=
  if is_source_ext s then true
  else match s with
       | EmptyString => false
       | String _ rest => has_source_ext rest
       end.

(** ** The archive: [new JSZip()] and [zip.file(name, blob)] *)

(** The entries of the archive are keyed by name: a second [zip.file]
    with the same name replaces the data of the first.  The list is in
    the order of the first insertions, which need not be the order in
    which the library lists its entries, and the folder entries that the
    library adds for a name with a [/] are left out: the statements
    about an archive are about which names it holds, with which data,
    for names without [/]. *)
Fixpoint zip_file (entry_name : string) (data : Blob) (zip : list (string * Blob))
  : list (string * Blob) :=
  match zip with
  | [] => [(entry_name, data)]
  | (n, d) :: rest =>
      if String.eqb n entry_name then (n, data) :: rest
      else (n, d) :: zip_file entry_name data rest
  end.

Definition zip_of (images : list ConvertedItem) : list (string * Blob) :=
  fold_left (fun zip image => zip_file (name image) (blob image) zip) images [].

(** ** The component *)

Section Pipeline.

(** The external capabilities.  [heic2any] resolves with a blob or
    rejects; [zip.generateAsync] likewise; [Date_now k] is what the
    [k]-th call of [Date.now()] returns. *)
Variable heic2any : File -> string -> Q -> option Blob.
Variable generateAsync : list (string * Blob) -> option Blob.
Variable Date_now : nat -> Z.

Definition now : M Z :=
  fun w => (Date_now (clock_reads w),
            mkWorld (next_url w) (next_ref w) (S (clock_reads w)) (log w)).

(** *** The clean-up effect

    [useEffect(() => () => {...}, [heicFiles, convertedImages])]: the
    function returned by the effect revokes the thumbnails and the
    converted URLs of the render that registered it. *)
Definition cleanup (s : AppState) : M unit :=
  forEach (fun item => revokeObjectURL (thumbnail item)) (items (heicFiles s)) ;;
  forEach (fun image => revokeObjectURL (Some (url image))) (items (convertedImages s)).

Definition same_deps (prev next : AppState) : bool :=
  ((ref (heicFiles prev) =? ref (heicFiles next))
   && (ref (convertedImages prev) =? ref (convertedImages next)))%nat.

(** React commits a batch of state updates: when one of the two
    dependencies is a different array, the clean-up of the previous
    render runs (on the arrays of that render) before the effect is
    registered again. *)
Definition rerender (prev next : AppState) : M AppState :=
  if same_deps prev next then ret next
  else cleanup prev ;; ret next.

(** *** [handleFileChange] *)

(** The callback of [newFiles.map]: three object URLs are created when
    the preview succeeds, two of them inside the [console.log] calls. *)
Definition make_thumbnail (f : File) : M AcceptedItem :=
  match heic2any f "image/jpeg" (2 # 10) with
  | Some thumbnailBlob =>
      _ <- createObjectURL ;;
      _ <- createObjectURL ;;
      u <- createObjectURL ;;
      ret (mkAccepted f (Some u))
  | None => ret (mkAccepted f None)
  end.

Definition handleFileChange (acceptedFiles : list File) (s : AppState) : M AppState :=
  let (newFiles, err) := filter_files acceptedFiles None in
  s1 <- rerender s (setError err s) ;;
  filesWithThumbnails <- mapM make_thumbnail newFiles ;;
  arr <- new_array (items (heicFiles s1) ++ filesWithThumbnails)%list ;;
  rerender s1 (setHeicFiles arr s1).

(** *** [convertImages] *)

Definition convert_failed (original : string) : string :=
  "Failed to convert " ++ original ++ ". Please try again.".

(** The [for ... of] loop: [acc] is [newConvertedImages] so far, [err]
    the error cell. *)
Fixpoint convert_loop (fmt : OutputFormat) (l : list AcceptedItem)
    (acc : list ConvertedItem) (err : option string)
  : M (list ConvertedItem * option string) :=
  match l with
  | [] => ret (acc, err)
  | item :: rest =>
      match heic2any (file item) ("image/" ++ format_string fmt) (9 # 10) with
      | Some convertedBlob =>
          u <- createObjectURL ;;
          t <- now ;;
          convert_loop fmt rest
            (acc ++ [mkConverted (file_name (file item) ++ "-" ++ string_of_Z t)
                                 (output_name fmt (file_name (file item)))
                                 u convertedBlob (file item)])%list
            err
      | None =>
          convert_loop fmt rest acc (Some (convert_failed (file_name (file item))))
      end
  end.

(** The three updates before the first [await] are one batch, which
    React commits while the first conversion is pending. *)
Definition convertImages_start (s : AppState) : M AppState :=
  empty <- new_array [] ;;
  rerender s (setConvertedImages empty (setError None (setLoading true s))).

(** The [setError] calls of the loop leave the dependencies alone; the
    last two updates are committed after the loop.  [heicFiles] and
    [outputFormat] are the values of the render that made the handler. *)
Definition convertImages (s : AppState) : M AppState :=
  s1 <- convertImages_start s ;;
  newConvertedImages <- new_array (@nil ConvertedItem) ;;
  r <- convert_loop (outputFormat s) (items (heicFiles s)) [] (error s1) ;;
  let s2 := setError (snd r) s1 in
  rerender s2 (setLoading false
                 (setConvertedImages (mkArray (ref newConvertedImages) (fst r)) s2)).

(** *** [downloadImage] and [downloadAllImages] *)

Definition downloadImage (image : ConvertedItem) : M unit :=
  emit (Click (url image) (name image)).

Definition zip_failed : string := "Failed to create zip file for download.".

Definition downloadAllImages (s : AppState) : M AppState :=
  if (List.length (items (convertedImages s)) =? 0)%nat then ret s
  else
    s1 <- rerender s (setLoading true s) ;;
    match generateAsync (zip_of (items (convertedImages s))) with
    | Some content =>
        u <- createObjectURL ;;
        emit (Click u "converted-images.zip") ;;
        rerender s1 (setLoading false s1)
    | None =>
        let s2 := setError (Some zip_failed) s1 in
        rerender s2 (setLoading false s2)
    end.

(** *** The [onClick] of the "Clear All" button *)

Definition clearAll (s : AppState) : M AppState :=
  forEach (fun item => revokeObjectURL (thumbnail item)) (items (heicFiles s)) ;;
  a <- new_array [] ;;
  forEach (fun image => revokeObjectURL (Some (url image))) (items (convertedImages s)) ;;
  b <- new_array [] ;;
  rerender s (setError None (setConvertedImages b (setHeicFiles a s))).

(** *** The first render *)

Definition init_state : AppState :=
  mkState (mkArray 0%nat []) (mkArray 1%nat []) jpeg false None.

Definition init_world : World := mkWorld 0 2 0 [].

(** The arrays of a state were allocated in this world. *)
Definition allocated (s : AppState) (w : World) : Prop :=
  (ref (heicFiles s) < next_ref w)%nat /\ (ref (convertedImages s) < next_ref w)%nat.

(** The sequence add, convert, clear. *)
Definition add_convert_clear (acceptedFiles : list File) : M AppState :=
  s1 <- handleFileChange acceptedFiles init_state ;;
  s2 <- convertImages s1 ;;
  clearAll s2.

End Pipeline.

(** ** Sample capabilities, for the concrete runs below *)

(** A codec that converts everything. *)
Definition ok_codec (f : File) (t : string) (q : Q) : option Blob :=
  Some (mkBlob t (file_size f)).

(** A codec that fails on the files of one name. *)
Definition codec_failing_on (bad : string) (f : File) (t : string) (q : Q)
  : option Blob :=
  if String.eqb (file_name f) bad then None else Some (mkBlob t (file_size f)).

Definition ok_zip (zip : list (string * Blob)) : option Blob :=
  Some (mkBlob "application/zip" (Z.of_nat (List.length zip))).

Definition failing_zip (zip : list (string * Blob)) : option Blob := None.

Definition sample_clock (k : nat) : Z := 1700000000000 + Z.of_nat k.

(** Files of two megabytes. *)
Definition a_heic : File := mkFile "a.heic" "image/heic" (2 * 1024 * 1024).
Definition a_heif : File := mkFile "a.heif" "image/heif" (2 * 1024 * 1024).
Definition b_heic : File := mkFile "b.heic" "image/heic" (2 * 1024 * 1024).

(** The component after the first render and one batch of files. *)
Definition loaded (heic2any : File -> string -> Q -> option Blob) (fs : list File)
  : AppState * World :=
  handleFileChange heic2any fs init_state init_world.

(** ... and after a conversion run on them. *)
Definition converted (heic2any : File -> string -> Q -> option Blob) (fs : list File)
  : AppState * World :=
  let (s, w) := loaded heic2any fs in
  convertImages heic2any sample_clock s w.


(** ** The older component, [src/App.jsx]

    No thumbnails, no clean-up effect and no "Clear All": the accepted
    files are kept as they are, and nothing compares arrays by
    identity, so the cells hold plain lists. *)
Module Legacy.

Record AppState := mkState {
  heicFiles : list File;
  convertedImages : list ConvertedItem;
  outputFormat : OutputFormat;
  loading : bool;
  error : option string
}.

(** [file.type !== 'image/heic' && file.type !== 'image/heif'] *)
Definition validate (f : File) : Verdict :=
  if negb (String.eqb (file_type f) "image/heic")
     && negb (String.eqb (file_type f) "image/heif") then
    Rejected ("Unsupported file type: " ++ file_name f
              ++ ". Only HEIC/HEIF files are allowed.")
  else if file_size f >? MAX_FILE_SIZE_MB * 1024 * 1024 then
    Rejected ("File " ++ file_name f ++ " is too large. Max file size is "
              ++ string_of_Z MAX_FILE_SIZE_MB ++ "MB.")
  else Accepted.

Fixpoint filter_files (fs : list File) (err : option string)
  : list File * option string :=
  match fs with
  | [] => ([], err)
  | f :: rest =>
      match validate f with
      | Accepted => let (kept, err') := filter_files rest err in (f :: kept, err')
      | Rejected reason => filter_files rest (Some reason)
      end
  end.

Definition handleFileChange (acceptedFiles : list File) (s : AppState) : AppState :=
  let (newFiles, err) := filter_files acceptedFiles None in
  mkState (heicFiles s ++ newFiles) (convertedImages s) (outputFormat s) (loading s) err.

(** [name.replace(/\.heic$/, `.${outputFormat}`)]: lower case only. *)
Fixpoint replace_heic (s replacement : string) : string :=
  if String.eqb s ".heic" then replacement
  else match s with
       | EmptyString => EmptyString
       | String c rest => String c (replace_heic rest replacement)
       end.

Definition output_name (fmt : OutputFormat) (original : string) : string :=
  replace_heic original ("." ++ format_string fmt).

Section Pipeline.

Variable heic2any : File -> string -> Q -> option Blob.
Variable generateAsync : list (string * Blob) -> option Blob.
Variable Date_now : nat -> Z.

Fixpoint convert_loop (fmt : OutputFormat) (l : list File)
    (acc : list ConvertedItem) (err : option string)
  : M (list ConvertedItem * option string) :=
  match l with
  | [] => ret (acc, err)
  | f :: rest =>
      match heic2any f ("image/" ++ format_string fmt) (9 # 10) with
      | Some convertedBlob =>
          u <- createObjectURL ;;
          t <- now Date_now ;;
          convert_loop fmt rest
            (acc ++ [mkConverted (file_name f ++ "-" ++ string_of_Z t)
                                 (output_name fmt (file_name f))
                                 u convertedBlob f])%list
            err
      | None => convert_loop fmt rest acc (Some (convert_failed (file_name f)))
      end
  end.

Definition convertImages (s : AppState) : M AppState :=
  r <- convert_loop (outputFormat s) (heicFiles s) [] None ;;
  ret (mkState (heicFiles s) (fst r) (outputFormat s) false (snd r)).

Definition downloadAllImages (s : AppState) : M AppState :=
  if (List.length (convertedImages s) =? 0)%nat then ret s
  else
    match generateAsync (zip_of (convertedImages s)) with
    | Some content =>
        u <- createObjectURL ;;
        emit (Click u "converted-images.zip") ;;
        ret (mkState (heicFiles s) (convertedImages s) (outputFormat s) false (error s))
    | None =>
        ret (mkState (heicFiles s) (convertedImages s) (outputFormat s) false
                     (Some zip_failed))
    end.

End Pipeline.

End Legacy.

(** ** Vocabulary of the statements *)

(** A name without its source extension. *)
Definition stem (s : string) : string := replace_source_ext s "".

(** The calls the clean-up of a render makes. *)
Definition revocations (s : AppState) : list Event :=
  (map (fun item => Revoke (thumbnail item)) (items (heicFiles s))
   ++ map (fun image => Revoke (Some (url image))) (items (convertedImages s)))%list.

(** Whether the full-quality conversion of an item succeeds. *)
Definition converts (heic2any : File -> string -> Q -> option Blob)
    (fmt : OutputFormat) (f : File) : bool :=
  match heic2any f ("image/" ++ format_string fmt) (9 # 10) with
  | Some _ => true
  | None => false
  end.

(** Whether the preview of a file succeeds. *)
Definition previews (heic2any : File -> string -> Q -> option Blob) (f : File) : bool :=
  match heic2any f "image/jpeg" (2 # 10) with
  | Some _ => true
  | None => false
  end.

(** Whether a URL is revoked somewhere in a log. *)
Definition revoked_in (l : list Event) (u : URL) : Prop := In (Revoke (Some u)) l.

(** The world after [k] successful conversions. *)
Definition after_conversions (w : World) (k : nat) : World :=
  mkWorld (next_url w + k) (next_ref w) (clock_reads w + k)
          (log w ++ map Create (seq (next_url w) k)).

(** The message of the last failed conversion, or what the cell held. *)
Definition last_failure (heic2any : File -> string -> Q -> option Blob)
    (fmt : OutputFormat) (fs : list File) (err : option string) : option string :=
  last (map (fun f => Some (convert_failed (file_name f)))
            (filter (fun f => negb (converts heic2any fmt f)) fs))
       err.

(** The world after [t] successful previews: three URLs each. *)
Definition after_previews (w : World) (t : nat) : World :=
  mkWorld (next_url w + 3 * t) (next_ref w) (clock_reads w)
          (log w ++ map Create (seq (next_url w) (3 * t))).

(** [handleDrop] (and the [onChange] of the file input): the dropped
    files, as an array, go to [handleFileChange]. *)
Definition handleDrop (heic2any : File -> string -> Q -> option Blob)
    (dataTransfer_files : list File) (s : AppState) : M AppState :=
  handleFileChange heic2any dataTransfer_files s.

(** The component is taken off the page: React runs the clean-up of the
    last render. *)
Definition unmount (s : AppState) : M unit := cleanup s.

Definition has_thumbnail (item : AcceptedItem) : bool :=
  match thumbnail item with
  | Some _ => true
  | None => false
  end.

(** The thumbnail URLs a list of accepted items holds. *)
Definition thumbnail_urls (l : list AcceptedItem) : list URL :=
  flat_map (fun item => match thumbnail item with
                        | Some u => [u]
                        | None => []
                        end) l.

(** The URLs a state holds: thumbnails, then converted images. *)
Definition held_urls (s : AppState) : list URL :=
  (thumbnail_urls (items (heicFiles s)) ++ map url (items (convertedImages s)))%list.

(** What an operation added to the log, from the world before it and
    the world after it. *)
Definition added_log (w w' : World) : list Event :=
  skipn (List.length (log w)) (log w').

(** Whether a string holds the character [-]. *)
Fixpoint has_dash (s : string) : bool :=
  match s with
  | EmptyString => false
  | String c rest => Ascii.eqb c "-" || has_dash rest
  end.

(** The URLs a log shows as created, in order. *)
Definition created_urls (l : list Event) : list URL :=
  flat_map (fun e => match e with
                     | Create u => [u]
                     | _ => []
                     end) l.

(** A state and a world that fit: the arrays were allocated, no URL is
    held twice, every URL that is held or was revoked has been handed
    out, and the URLs handed out are [0], [1], ... in the order of the
    log. *)
Definition consistent (s : AppState) (w : World) : Prop :=
  ((ref (heicFiles s) < next_ref w)%nat /\ (ref (convertedImages s) < next_ref w)%nat)
  /\ NoDup (held_urls s)
  /\ (forall u, In u (held_urls s) -> (u < next_url w)%nat)
  /\ (forall u, In (Revoke (Some u)) (log w) -> (u < next_url w)%nat)
  /\ created_urls (log w) = seq 0 (next_url w).

(** Whether a string holds the character [/]. *)
Fixpoint has_slash (s : string) : bool :=
  match s with
  | EmptyString => false
  | String c rest => Ascii.eqb c "/" || has_slash rest
  end.

(** The older component after one batch of one file and a first
    conversion run, and after a second run. *)
Definition legacy_first_run : Legacy.AppState * World :=
  Legacy.convertImages ok_codec sample_clock
    (Legacy.handleFileChange [a_heic] (Legacy.mkState [] [] jpeg false None))
    init_world.

Definition legacy_second_run : Legacy.AppState * World :=
  Legacy.convertImages ok_codec sample_clock
    (fst legacy_first_run) (snd legacy_first_run).

(** The states the page is in between handlers that run to their end,
    with the world that goes with them: the first render, then the
    actions the page offers, each one finished before the next.  (A
    click that comes while a handler is suspended at an [await] is not
    among the steps.)  The "Convert"
    button is disabled while [heicFiles] is empty or [loading] is set,
    "Download All as ZIP" is only there for a non-empty
    [convertedImages], "Clear All" for a non-empty [heicFiles]. *)
Inductive reachable (heic2any : File -> string -> Q -> option Blob)
    (generateAsync : list (string * Blob) -> option Blob) (Date_now : nat -> Z)
  : AppState -> World -> Prop :=
| reach_init :
    reachable heic2any generateAsync Date_now init_state init_world
| reach_add s w fs :
    reachable heic2any generateAsync Date_now s w ->
    reachable heic2any generateAsync Date_now
      (fst (handleFileChange heic2any fs s w))
      (snd (handleFileChange heic2any fs s w))
| reach_select s w fmt :
    reachable heic2any generateAsync Date_now s w ->
    reachable heic2any generateAsync Date_now (setOutputFormat fmt s) w
| reach_convert s w :
    reachable heic2any generateAsync Date_now s w ->
    items (heicFiles s) <> [] -> loading s = false ->
    reachable heic2any generateAsync Date_now
      (fst (convertImages heic2any Date_now s w))
      (snd (convertImages heic2any Date_now s w))
| reach_download s w image :
    reachable heic2any generateAsync Date_now s w ->
    In image (items (convertedImages s)) ->
    reachable heic2any generateAsync Date_now s (snd (downloadImage image w))
| reach_download_all s w :
    reachable heic2any generateAsync Date_now s w ->
    items (convertedImages s) <> [] -> loading s = false ->
    reachable heic2any generateAsync Date_now
      (fst (downloadAllImages generateAsync s w))
      (snd (downloadAllImages generateAsync s w))
| reach_clear s w :
    reachable heic2any generateAsync Date_now s w ->
    items (heicFiles s) <> [] ->
    reachable heic2any generateAsync Date_now
      (fst (clearAll s w)) (snd (clearAll s w)).

(** What the page can do from a given state on: the same actions as in
    [reachable], started anywhere. *)
Inductive steps (heic2any : File -> string -> Q -> option Blob)
    (generateAsync : list (string * Blob) -> option Blob) (Date_now : nat -> Z)
    (s0 : AppState) (w0 : World)
  : AppState -> World -> Prop :=
| steps_none :
    steps heic2any generateAsync Date_now s0 w0 s0 w0
| steps_add s w fs :
    steps heic2any generateAsync Date_now s0 w0 s w ->
    steps heic2any generateAsync Date_now s0 w0
      (fst (handleFileChange heic2any fs s w))
      (snd (handleFileChange heic2any fs s w))
| steps_select s w fmt :
    steps heic2any generateAsync Date_now s0 w0 s w ->
    steps heic2any generateAsync Date_now s0 w0 (setOutputFormat fmt s) w
| steps_convert s w :
    steps heic2any generateAsync Date_now s0 w0 s w ->
    items (heicFiles s) <> [] -> loading s = false ->
    steps heic2any generateAsync Date_now s0 w0
      (fst (convertImages heic2any Date_now s w))
      (snd (convertImages heic2any Date_now s w))
| steps_download s w image :
    steps heic2any generateAsync Date_now s0 w0 s w ->
    In image (items (convertedImages s)) ->
    steps heic2any generateAsync Date_now s0 w0 s (snd (downloadImage image w))
| steps_download_all s w :
    steps heic2any generateAsync Date_now s0 w0 s w ->
    items (convertedImages s) <> [] -> loading s = false ->
    steps heic2any generateAsync Date_now s0 w0
      (fst (downloadAllImages generateAsync s w))
      (snd (downloadAllImages generateAsync s w))
| steps_clear s w :
    steps heic2any generateAsync Date_now s0 w0 s w ->
    items (heicFiles s) <> [] ->
    steps heic2any generateAsync Date_now s0 w0
      (fst (clearAll s w)) (snd (clearAll s w)).

(** How an operation may change the URLs: the counter does not go back,
    a URL held afterwards was held before or is a new one, and a URL
    revoked afterwards was revoked before or was held before. *)
Definition frame (s : AppState) (w : World) (s' : AppState) (w' : World) : Prop :=
  (next_url w <= next_url w')%nat
  /\ (forall u, In u (held_urls s') -> In u (held_urls s) \/ (next_url w <= u)%nat)
  /\ (forall u, In (Revoke (Some u)) (log w') ->
                 In (Revoke (Some u)) (log w) \/ In u (held_urls s)).

(** * Properties *)

(** ** Strings *)

Lemma string_app_nil_r (s : string) : s ++ "" = s.
Proof. induction s; simpl; congruence. Qed.

Lemma string_app_assoc (a b c : string) : (a ++ b) ++ c = a ++ (b ++ c).
Proof. induction a; simpl; congruence. Qed.

Lemma string_length_app (a b : string) :
  String.length (a ++ b) = (String.length a + String.length b)%nat.
Proof. induction a; simpl; congruence. Qed.

(** Appending on the right can be cancelled. *)
Lemma string_app_inv_tail (x a b : string) : a ++ x = b ++ x -> a = b.
Proof.
  revert b. induction a as [|c a IH]; intros [|d b] H; simpl in H.
  - reflexivity.
  - apply (f_equal String.length) in H. simpl in H.
    rewrite string_length_app in H. lia.
  - apply (f_equal String.length) in H. simpl in H.
    rewrite string_length_app in H. lia.
  - injection H as -> H. f_equal. now apply IH.
Qed.

(** [ends_with] decides "some prefix followed by the suffix". *)
Lemma ends_with_spec (suffix s : string) :
  ends_with suffix s = true <-> exists p, s = p ++ suffix.
Proof.
  split.
  - induction s as [|c s IH].
    + destruct suffix; simpl; [|discriminate].
      intros _. now exists "".
    + cbn [ends_with]. destruct (String.eqb_spec (String c s) suffix) as [<-|].
      * intros _. now exists "".
      * intros H. destruct (IH H) as [p ->]. now exists (String c p).
  - intros [p ->]. induction p as [|c p IH].
    + change ("" ++ suffix) with suffix.
      destruct suffix; cbn [ends_with]; now rewrite String.eqb_refl.
    + change (String c p ++ suffix) with (String c (p ++ suffix)).
      cbn [ends_with].
      destruct (String.eqb (String c (p ++ suffix)) suffix); [reflexivity|exact IH].
Qed.

Lemma is_source_ext_length (s : string) :
  is_source_ext s = true -> String.length s = 5%nat.
Proof.
  unfold is_source_ext.
  assert (L : forall t, String.length (fold_case_string t) = String.length t)
    by (induction t; simpl; congruence).
  rewrite <- (L s). intros H. apply orb_true_iff in H.
  destruct H as [H|H]; apply String.eqb_eq in H; now rewrite H.
Qed.

(** [has_source_ext] decides "some prefix followed by [.heic] or [.heif]
    in any letter case". *)
Lemma has_source_ext_spec (s : string) :
  has_source_ext s = true <->
  exists p e, s = p ++ e /\
              (fold_case_string e = ".heic" \/ fold_case_string e = ".heif").
Proof.
  split.
  - induction s as [|c s IH].
    + intros H. vm_compute in H. discriminate H.
    + simpl. destruct (is_source_ext (String c s)) eqn:E.
      * intros _. exists "", (String c s). split; [reflexivity|].
        unfold is_source_ext in E. apply orb_true_iff in E.
        destruct E as [E|E]; apply String.eqb_eq in E; auto.
      * intros H. destruct (IH H) as (p & e & -> & He).
        exists (String c p), e. auto.
  - intros (p & e & -> & He).
    assert (E : is_source_ext e = true).
    { unfold is_source_ext. apply orb_true_iff.
      destruct He as [-> | ->]; [left|right]; reflexivity. }
    induction p as [|c p IH].
    + change ("" ++ e) with e.
      destruct e; cbn [has_source_ext]; now rewrite E.
    + change (String c p ++ e) with (String c (p ++ e)).
      cbn [has_source_ext].
      destruct (is_source_ext (String c (p ++ e))); [reflexivity|exact IH].
Qed.

Lemma is_source_ext_other_length (s : string) :
  String.length s <> 5%nat -> is_source_ext s = false.
Proof.
  intros H. destruct (is_source_ext s) eqn:E; [|reflexivity].
  now apply is_source_ext_length in E.
Qed.

(** Only the last five characters can match: the extension is replaced
    and what stands before it is kept. *)
Lemma replace_source_ext_match (p e r : string) :
  is_source_ext e = true -> replace_source_ext (p ++ e) r = p ++ r.
Proof.
  intros E. induction p as [|c p IH].
  - change ("" ++ e) with e. destruct e; cbn [replace_source_ext]; now rewrite E.
  - change (String c p ++ e) with (String c (p ++ e)).
    cbn [replace_source_ext]. rewrite is_source_ext_other_length.
    + now rewrite IH.
    + simpl. rewrite string_length_app, (is_source_ext_length _ E). lia.
Qed.

(** Without the extension the name is returned as it is. *)
Lemma replace_source_ext_none (s r : string) :
  has_source_ext s = false -> replace_source_ext s r = s.
Proof.
  induction s as [|c s IH]; intros H.
  - cbn [replace_source_ext]. cbn [has_source_ext] in H.
    destruct (is_source_ext ""); [discriminate|reflexivity].
  - cbn [replace_source_ext]. cbn [has_source_ext] in H.
    destruct (is_source_ext (String c s)); [discriminate|].
    now rewrite IH.
Qed.

(** A name that carries the extension splits into its stem and it. *)
Lemma has_source_ext_split (s : string) :
  has_source_ext s = true ->
  exists e, is_source_ext e = true /\ s = stem s ++ e.
Proof.
  induction s as [|c s IH]; intros H.
  - vm_compute in H. discriminate.
  - unfold stem. cbn [has_source_ext] in H. cbn [replace_source_ext].
    destruct (is_source_ext (String c s)) eqn:E.
    + exists (String c s). now split.
    + destruct (IH H) as (e & He & Hs). exists e. split; [exact He|].
      simpl. f_equal. exact Hs.
Qed.

Lemma output_name_with_ext (fmt : OutputFormat) (s : string) :
  has_source_ext s = true ->
  output_name fmt s = stem s ++ "." ++ format_string fmt.
Proof.
  intros H. destruct (has_source_ext_split s H) as (e & He & Hs).
  unfold output_name. rewrite Hs at 1. now apply replace_source_ext_match.
Qed.

(** A name that ends in the target extension does not end in the
    source extension. *)
Lemma target_ext_not_source (fmt : OutputFormat) (p : string) :
  has_source_ext (p ++ "." ++ format_string fmt) = false.
Proof.
  induction p as [|c p IH].
  - destruct fmt; reflexivity.
  - change (String c p ++ "." ++ format_string fmt)
      with (String c (p ++ "." ++ format_string fmt)).
    cbn [has_source_ext]. rewrite IH.
    destruct p as [|d p].
    + destruct fmt.
      * rewrite is_source_ext_other_length; [reflexivity|simpl; lia].
      * unfold is_source_ext. simpl.
        destruct (Ascii.eqb (fold_case c) "."); reflexivity.
    + rewrite is_source_ext_other_length; [reflexivity|].
      simpl. rewrite string_length_app. destruct fmt; simpl; lia.
Qed.


(** ** The browser *)

Lemma add_log_nil (w : World) : add_log w [] = w.
Proof. destruct w. unfold add_log. simpl. now rewrite app_nil_r. Qed.

Lemma add_log_app (w : World) (l1 l2 : list Event) :
  add_log (add_log w l1) l2 = add_log w (l1 ++ l2).
Proof. unfold add_log. simpl. now rewrite app_assoc. Qed.

Lemma forEach_revoke {A} (g : A -> option URL) (l : list A) (w : World) :
  forEach (fun x => revokeObjectURL (g x)) l w
  = (tt, add_log w (map (fun x => Revoke (g x)) l)).
Proof.
  revert w. induction l as [|x l IH]; intros w; simpl.
  - unfold ret. now rewrite add_log_nil.
  - unfold bind, revokeObjectURL, emit. rewrite IH, add_log_app. reflexivity.
Qed.

Lemma count_creates_app (l1 l2 : list Event) :
  count_creates (l1 ++ l2) = (count_creates l1 + count_creates l2)%nat.
Proof. unfold count_creates. now rewrite filter_app, length_app. Qed.

Lemma count_revokes_app (l1 l2 : list Event) :
  count_revokes (l1 ++ l2) = (count_revokes l1 + count_revokes l2)%nat.
Proof. unfold count_revokes. now rewrite filter_app, length_app. Qed.

Lemma count_creates_revokes {A} (g : A -> option URL) (l : list A) :
  count_creates (map (fun x => Revoke (g x)) l) = 0%nat.
Proof. induction l; simpl; auto. Qed.

Lemma count_revokes_revokes {A} (g : A -> option URL) (l : list A) :
  count_revokes (map (fun x => Revoke (g x)) l) = List.length l.
Proof. unfold count_revokes. induction l; simpl; auto. Qed.

Lemma count_creates_revocations (s : AppState) :
  count_creates (revocations s) = 0%nat.
Proof.
  unfold revocations. now rewrite count_creates_app, !count_creates_revokes.
Qed.

Lemma count_revokes_revocations (s : AppState) :
  count_revokes (revocations s)
  = (List.length (items (heicFiles s)) + List.length (items (convertedImages s)))%nat.
Proof.
  unfold revocations. now rewrite count_revokes_app, !count_revokes_revokes.
Qed.

(** ** The clean-up effect *)

Lemma cleanup_spec (s : AppState) (w : World) :
  cleanup s w = (tt, add_log w (revocations s)).
Proof.
  unfold cleanup, bind. rewrite !forEach_revoke, add_log_app. reflexivity.
Qed.

(** A commit always installs the new state. *)
Lemma rerender_fst (prev next : AppState) (w : World) :
  fst (rerender prev next w) = next.
Proof.
  unfold rerender. destruct (same_deps prev next); [reflexivity|].
  unfold bind. rewrite cleanup_spec. reflexivity.
Qed.

(** A batch that leaves both arrays alone runs no clean-up. *)
Lemma rerender_same (prev next : AppState) (w : World) :
  heicFiles next = heicFiles prev ->
  convertedImages next = convertedImages prev ->
  rerender prev next w = (next, w).
Proof.
  intros H1 H2. unfold rerender, same_deps.
  now rewrite H1, H2, !Nat.eqb_refl.
Qed.

(** A batch that replaces one of them runs the clean-up of the previous
    render. *)
Lemma rerender_changed (prev next : AppState) (w : World) :
  same_deps prev next = false ->
  rerender prev next w = (next, add_log w (revocations prev)).
Proof.
  intros H. unfold rerender. rewrite H. unfold bind.
  now rewrite cleanup_spec.
Qed.

(** What a commit does to the world, in both cases. *)
Lemma rerender_world (prev next : AppState) (w : World) :
  exists l, snd (rerender prev next w) = add_log w l
            /\ (l = [] \/ l = revocations prev).
Proof.
  destruct (same_deps prev next) eqn:E.
  - exists []. unfold rerender. rewrite E. simpl. rewrite add_log_nil. auto.
  - exists (revocations prev). rewrite rerender_changed by exact E. auto.
Qed.

(** ** Validation *)

Lemma includes_spec (l : list string) (s : string) :
  includes l s = true <-> In s l.
Proof.
  unfold includes. rewrite existsb_exists. split.
  - intros (x & Hx & E). apply String.eqb_eq in E. now subst.
  - intros H. exists s. split; [exact H|apply String.eqb_refl].
Qed.

Lemma validate_rejects (f : File) :
  (exists reason, validate f = Rejected reason) <->
  (~ In (file_type f) allowed_types
   \/ file_size f > MAX_FILE_SIZE_MB * 1024 * 1024).
Proof.
  unfold validate.
  destruct (includes allowed_types (file_type f)) eqn:E; cbn [negb].
  - apply includes_spec in E.
    destruct (Z.gtb_spec (file_size f) (MAX_FILE_SIZE_MB * 1024 * 1024)).
    + split; [intros _; right; lia|intros _; eauto].
    + split; [intros [r Hr]; discriminate|].
      intros [Hn|Hn]; [contradiction|lia].
  - split; [|intros _; eauto].
    intros _. left. intros H. apply includes_spec in H. congruence.
Qed.

Lemma accepts_false (f : File) :
  accepts f = false <-> exists reason, validate f = Rejected reason.
Proof.
  unfold accepts. destruct (validate f); split; try discriminate; eauto.
  intros [r H]. discriminate.
Qed.

Lemma filter_files_kept (fs : list File) (err : option string) :
  fst (filter_files fs err) = filter accepts fs.
Proof.
  revert err. induction fs as [|f fs IH]; intros err; simpl; [reflexivity|].
  unfold accepts. destruct (validate f).
  - specialize (IH err). destruct (filter_files fs err). simpl in *. now rewrite IH.
  - apply IH.
Qed.

Lemma mapM_make_thumbnail_files (heic2any : File -> string -> Q -> option Blob)
    (l : list File) (w : World) :
  map file (fst (mapM (make_thumbnail heic2any) l w)) = l.
Proof.
  revert w. induction l as [|f l IH]; intros w; simpl; [reflexivity|].
  unfold bind at 1.
  destruct (make_thumbnail heic2any f w) as [a w1] eqn:E.
  unfold bind at 1. specialize (IH w1).
  destruct (mapM (make_thumbnail heic2any) l w1) as [ys w2]. simpl in *.
  f_equal; [|exact IH].
  unfold make_thumbnail in E. destruct (heic2any f "image/jpeg" (2 # 10)).
  - unfold bind, createObjectURL, ret in E. simpl in E. now inversion E.
  - unfold ret in E. now inversion E.
Qed.

(** [handleFileChange], run: the filter, the previews, one commit. *)
Lemma handleFileChange_run (heic2any : File -> string -> Q -> option Blob)
    (fs : list File) (s : AppState) (w : World) :
  handleFileChange heic2any fs s w
  = let err := snd (filter_files fs None) in
    let t := mapM (make_thumbnail heic2any) (filter accepts fs) w in
    let s1 := setError err s in
    rerender s1
      (setHeicFiles (mkArray (next_ref (snd t)) (items (heicFiles s) ++ fst t)) s1)
      (alloc (snd t)).
Proof.
  unfold handleFileChange.
  pose proof (filter_files_kept fs None) as K.
  destruct (filter_files fs None) as [newFiles err]. simpl in K. subst newFiles.
  unfold bind at 1. rewrite rerender_same by reflexivity.
  unfold bind at 1.
  destruct (mapM (make_thumbnail heic2any) (filter accepts fs) w) as [ts w1].
  reflexivity.
Qed.

(** The state [handleFileChange] leaves: the accepted files are
    appended, the error cell holds the reason of the last rejection. *)
Lemma handleFileChange_state (heic2any : File -> string -> Q -> option Blob)
    (fs : list File) (s : AppState) (w : World) :
  let s' := fst (handleFileChange heic2any fs s w) in
  map file (items (heicFiles s'))
  = (map file (items (heicFiles s)) ++ filter accepts fs)%list
  /\ convertedImages s' = convertedImages s
  /\ outputFormat s' = outputFormat s
  /\ loading s' = loading s
  /\ error s' = snd (filter_files fs None).
Proof.
  intros s'. subst s'. rewrite handleFileChange_run. cbv zeta.
  rewrite rerender_fst. simpl.
  rewrite map_app, mapM_make_thumbnail_files. auto.
Qed.

(** The comparison of media types is exact: another letter case is
    another type. *)
Example upper_case_type_rejected :
  accepts (mkFile "IMG_0001.HEIC" "IMAGE/HEIC" 1024) = false.
Proof. reflexivity. Qed.



(** ** The conversion loop *)

Lemma last_default_irrelevant {A} (x d d' : A) (l : list A) :
  last (x :: l) d = last (x :: l) d'.
Proof.
  revert x. induction l as [|y l IH]; intros x; [reflexivity|].
  change (last (x :: y :: l) d) with (last (y :: l) d).
  change (last (x :: y :: l) d') with (last (y :: l) d').
  apply IH.
Qed.

Lemma last_cons_default {A} (x d : A) (l : list A) :
  last (x :: l) d = last l x.
Proof.
  destruct l as [|y l]; [reflexivity|].
  change (last (x :: y :: l) d) with (last (y :: l) d).
  apply last_default_irrelevant.
Qed.

Section ConversionLoop.

Variable heic2any : File -> string -> Q -> option Blob.
Variable Date_now : nat -> Z.
Variable fmt : OutputFormat.

(** The loop goes through the whole list: it pushes one item for each
    conversion that succeeds, in list order, each with a URL made for
    it, and records the last failure. *)
Lemma convert_loop_spec (l : list AcceptedItem) :
  forall (acc : list ConvertedItem) (err : option string) (w : World),
  exists new : list ConvertedItem,
    convert_loop heic2any Date_now fmt l acc err w
    = ((acc ++ new)%list,
       last_failure heic2any fmt (map file l) err,
       after_conversions w (List.length new))
    /\ map originalFile new = filter (converts heic2any fmt) (map file l)
    /\ map name new = map (fun f => output_name fmt (file_name f))
                          (filter (converts heic2any fmt) (map file l))
    /\ map url new = seq (next_url w) (List.length new).
Proof.
  induction l as [|item l IH]; intros acc err w.
  - exists []. simpl. unfold ret, after_conversions, last_failure. simpl.
    rewrite app_nil_r, !Nat.add_0_r. destruct w. simpl. rewrite app_nil_r. auto.
  - cbn [convert_loop map filter]. unfold last_failure, converts.
    cbn [map filter].
    destruct (heic2any (file item) ("image/" ++ format_string fmt) (9 # 10))
      as [convertedBlob|] eqn:E.
    + unfold bind at 1. unfold createObjectURL at 1.
      unfold bind at 1. unfold now at 1. cbn [negb next_url clock_reads].
      match goal with
      | |- context [convert_loop _ _ _ l ?a ?e ?w0] =>
          destruct (IH a e w0) as (new & R & Ho & Hn & Hu); rewrite R
      end.
      match goal with
      | |- context [((acc ++ [?i]) ++ new)%list] => exists (i :: new)
      end.
      cbn [next_url next_ref clock_reads log] in *.
      split; [|split; [|split]].
      * rewrite <- app_assoc. cbn [app]. f_equal.
        unfold after_conversions. cbn [next_url next_ref clock_reads log List.length].
        f_equal; try lia.
        rewrite <- app_assoc. cbn [seq map app]. reflexivity.
      * cbn [map originalFile]. f_equal. exact Ho.
      * cbn [map name]. f_equal. exact Hn.
      * cbn [map url List.length seq]. f_equal. exact Hu.
    + cbn [negb map].
      destruct (IH acc (Some (convert_failed (file_name (file item)))) w)
        as (new & R & Ho & Hn & Hu).
      exists new. rewrite R. split; [|auto].
      f_equal. f_equal. unfold last_failure, converts.
      now rewrite last_cons_default.
Qed.

End ConversionLoop.

(** ** [convertImages] *)

Section Conversion.

Variable heic2any : File -> string -> Q -> option Blob.
Variable Date_now : nat -> Z.

Lemma convertImages_start_run (s : AppState) (w : World) :
  convertImages_start s w
  = rerender s
      (setConvertedImages (mkArray (next_ref w) [])
                          (setError None (setLoading true s)))
      (alloc w).
Proof. reflexivity. Qed.

(** The first batch leaves the counters of the world as an allocation
    does, and adds to the log either nothing or the clean-up. *)
Lemma convertImages_start_world (s : AppState) (w : World) :
  exists l, snd (convertImages_start s w) = add_log (alloc w) l
            /\ (l = [] \/ l = revocations s).
Proof. rewrite convertImages_start_run. apply rerender_world. Qed.

(** When the arrays of the state were allocated before, the new empty
    array is another one and the clean-up runs. *)
Lemma convertImages_start_allocated (s : AppState) (w : World) :
  allocated s w ->
  convertImages_start s w
  = (setConvertedImages (mkArray (next_ref w) [])
                        (setError None (setLoading true s)),
     add_log (alloc w) (revocations s)).
Proof.
  intros [_ H]. rewrite convertImages_start_run.
  apply rerender_changed. unfold same_deps. cbn.
  apply andb_false_iff. right. apply Nat.eqb_neq. lia.
Qed.

(** [convertImages], run: the first commit, the loop, the last commit,
    whose clean-up is that of the render with the emptied list. *)
Lemma convertImages_run (s : AppState) (w : World) :
  exists (new : list ConvertedItem) (l : list Event),
    let s2 := setError (last_failure heic2any (outputFormat s)
                          (map file (items (heicFiles s))) None)
                (setConvertedImages (mkArray (next_ref w) [])
                   (setError None (setLoading true s))) in
    convertImages heic2any Date_now s w
    = (setLoading false (setConvertedImages (mkArray (S (next_ref w)) new) s2),
       add_log (after_conversions (alloc (add_log (alloc w) l)) (List.length new))
               (revocations s2))
    /\ (l = [] \/ l = revocations s)
    /\ (allocated s w -> l = revocations s)
    /\ map originalFile new
       = filter (converts heic2any (outputFormat s)) (map file (items (heicFiles s)))
    /\ map name new
       = map (fun f => output_name (outputFormat s) (file_name f))
           (filter (converts heic2any (outputFormat s))
                   (map file (items (heicFiles s))))
    /\ map url new = seq (next_url w) (List.length new).
Proof.
  unfold convertImages. unfold bind at 1.
  destruct (convertImages_start_world s w) as (l & Hw & Hl).
  pose proof (rerender_fst s
    (setConvertedImages (mkArray (next_ref w) []) (setError None (setLoading true s)))
    (alloc w)) as Hs.
  rewrite <- convertImages_start_run in Hs.
  assert (Ha : allocated s w -> l = revocations s).
  { intros A. rewrite (convertImages_start_allocated s w A) in Hw.
    simpl in Hw. unfold add_log in Hw. injection Hw as Hw.
    now apply app_inv_head in Hw. }
  destruct (convertImages_start s w) as [s1 w1]. simpl in Hs, Hw. subst s1 w1.
  unfold bind at 1. unfold new_array at 1.
  unfold bind at 1. cbn [error setConvertedImages setError].
  destruct (convert_loop_spec heic2any Date_now (outputFormat s)
              (items (heicFiles s)) [] None (alloc (add_log (alloc w) l)))
    as (new & R & Ho & Hn & Hu).
  rewrite R. cbn [app fst snd].
  exists new, l. cbv zeta.
  split; [|repeat split; auto].
  apply rerender_changed.
  unfold same_deps. cbn. apply andb_false_iff. right.
  apply Nat.eqb_neq. lia.
Qed.

End Conversion.



(** ** Output names *)



(** ** Collisions of output names *)

Lemma NoDup_map_filter {A B} (g : A -> B) (p : A -> bool) (l : list A) :
  NoDup (map g l) -> NoDup (map g (filter p l)).
Proof.
  induction l as [|x l IH]; simpl; intros H; [constructor|].
  inversion H as [|? ? Hx Hl]; subst.
  destruct (p x); [|now apply IH].
  simpl. constructor; [|now apply IH].
  intros Hin. apply Hx. apply in_map_iff in Hin.
  destruct Hin as (y & Hy & Hf). apply filter_In in Hf.
  apply in_map_iff. exists y. tauto.
Qed.

Lemma NoDup_map_append (t : string) (l : list string) :
  NoDup l -> NoDup (map (fun x => x ++ t) l).
Proof.
  induction 1 as [|x l Hx Hl IH]; simpl; constructor; [|exact IH].
  intros Hin. apply in_map_iff in Hin. destruct Hin as (y & Hy & Hin).
  apply string_app_inv_tail in Hy. now subst.
Qed.

(** The archive keeps one entry per name. *)
Lemma zip_file_names (n : string) (d : Blob) (zip : list (string * Blob)) :
  map fst (zip_file n d zip)
  = if existsb (String.eqb n) (map fst zip) then map fst zip
    else (map fst zip ++ [n])%list.
Proof.
  induction zip as [|[m e] zip IH]; simpl; [reflexivity|].
  rewrite (String.eqb_sym n m).
  destruct (String.eqb m n) eqn:E; simpl; [reflexivity|].
  rewrite IH. destruct (existsb (String.eqb n) (map fst zip)); reflexivity.
Qed.

(** C8, as the code has it: the output names of a run are pairwise
    distinct when every accepted file name ends in [.heic] or [.heif]
    (in any letter case) and the names without that extension are
    pairwise distinct.  Nothing in the run removes or renames a
    duplicate. *)
Theorem C8_names_distinct_for_distinct_stems
    (heic2any : File -> string -> Q -> option Blob) (Date_now : nat -> Z)
    (s : AppState) (w : World) :
  (forall item, In item (items (heicFiles s)) ->
                has_source_ext (file_name (file item)) = true) ->
  NoDup (map (fun item => stem (file_name (file item))) (items (heicFiles s))) ->
  NoDup (map name (items (convertedImages
                            (fst (convertImages heic2any Date_now s w))))).
Proof.
  intros Hext Hnd.
  destruct (convertImages_run heic2any Date_now s w)
    as (new & l & R & _ & _ & _ & Hn & _).
  cbv zeta in R. rewrite R.
  cbn [fst convertedImages items setLoading setConvertedImages]. rewrite Hn.
  set (kept := filter (converts heic2any (outputFormat s))
                      (map file (items (heicFiles s)))).
  assert (E : map (fun f => output_name (outputFormat s) (file_name f)) kept
              = map (fun x => x ++ "." ++ format_string (outputFormat s))
                    (map (fun f => stem (file_name f)) kept)).
  { rewrite map_map. apply map_ext_in. intros f Hf.
    apply output_name_with_ext.
    apply filter_In in Hf. destruct Hf as [Hf _].
    apply in_map_iff in Hf. destruct Hf as (item & <- & Hitem).
    now apply Hext. }
  rewrite E. apply NoDup_map_append. unfold kept.
  apply NoDup_map_filter. now rewrite map_map.
Qed.

Lemma C8_names_distinct_for_distinct_stems_witness :
  NoDup (map name (items (convertedImages (fst (converted ok_codec [a_heic; b_heic]))))).
Proof.
  pose (s := fst (loaded ok_codec [a_heic; b_heic])).
  pose (w := snd (loaded ok_codec [a_heic; b_heic])).
  change (converted ok_codec [a_heic; b_heic])
    with (convertImages ok_codec sample_clock s w).
  apply (C8_names_distinct_for_distinct_stems ok_codec sample_clock s w).
  - intros item [<-|[<-|[]]]; reflexivity.
  - vm_compute. constructor; [simpl; intros [H|[]]; discriminate H|].
    constructor; [simpl; tauto|constructor].
Defined.

(** Two accepted files whose names differ only in the extension, both
    converted: the two items carry the same output name, and the
    archive made of them holds a single entry. *)
Lemma C8_counterexample :
  accepts a_heic = true /\ accepts a_heif = true /\ a_heic <> a_heif
  /\ map name (items (convertedImages (fst (converted ok_codec [a_heic; a_heif]))))
     = ["a.jpeg"; "a.jpeg"]
  /\ ~ NoDup (map name (items (convertedImages
                                 (fst (converted ok_codec [a_heic; a_heif])))))
  /\ map fst (zip_of (items (convertedImages
                               (fst (converted ok_codec [a_heic; a_heif])))))
     = ["a.jpeg"].
Proof.
  split; [reflexivity|]. split; [reflexivity|]. split; [discriminate|].
  split; [reflexivity|]. split; [|reflexivity].
  vm_compute. intros H. inversion H as [|? ? Hx _]; subst.
  apply Hx. simpl. auto.
Qed.

(** ** [downloadAllImages] *)



(** A bundle that succeeds leaves the error cell as it found it. *)
Lemma downloadAllImages_success_keeps_error
    (generateAsync : list (string * Blob) -> option Blob) (s : AppState) (w : World)
    (content : Blob) :
  generateAsync (zip_of (items (convertedImages s))) = Some content ->
  error (fst (downloadAllImages generateAsync s w)) = error s.
Proof.
  intros Hz. unfold downloadAllImages.
  destruct (List.length (items (convertedImages s)) =? 0)%nat; [reflexivity|].
  unfold bind at 1. rewrite rerender_same by reflexivity.
  rewrite Hz. unfold bind, createObjectURL, emit.
  rewrite rerender_fst. reflexivity.
Qed.



(** ** "Clear All" *)

Lemma clearAll_run (s : AppState) (w : World) :
  clearAll s w
  = rerender s
      (setError None
         (setConvertedImages (mkArray (S (next_ref w)) [])
            (setHeicFiles (mkArray (next_ref w) []) s)))
      (alloc (alloc (add_log w (revocations s)))).
Proof.
  unfold clearAll, bind. rewrite forEach_revoke. unfold new_array.
  rewrite forEach_revoke. f_equal.
  unfold alloc, add_log, revocations. simpl. now rewrite app_assoc.
Qed.

Lemma clearAll_state (s : AppState) (w : World) :
  view (fst (clearAll s w)) = ([], [], outputFormat s, loading s, None).
Proof. rewrite clearAll_run, rerender_fst. reflexivity. Qed.

(** A clear of a state that has nothing to revoke leaves the log alone. *)
Lemma clearAll_nothing_to_revoke (s : AppState) (w : World) :
  items (heicFiles s) = [] -> items (convertedImages s) = [] ->
  log (snd (clearAll s w)) = log w /\ next_url (snd (clearAll s w)) = next_url w.
Proof.
  intros H1 H2. rewrite clearAll_run.
  assert (R : revocations s = []) by (unfold revocations; now rewrite H1, H2).
  destruct (rerender_world s
    (setError None
       (setConvertedImages (mkArray (S (next_ref w)) [])
          (setHeicFiles (mkArray (next_ref w) []) s)))
    (alloc (alloc (add_log w (revocations s))))) as (l & -> & Hl).
  assert (l = []) by (destruct Hl; congruence). subst l.
  rewrite R. simpl. rewrite !app_nil_r. auto.
Qed.

(** A second clear right after a first leaves what the state holds as
    the first left it (empty lists, no error) and calls neither
    [URL.revokeObjectURL] nor [URL.createObjectURL]. *)
Lemma clearAll_idempotent (s : AppState) (w : World) :
  view (fst (clearAll (fst (clearAll s w)) (snd (clearAll s w))))
  = view (fst (clearAll s w))
  /\ log (snd (clearAll (fst (clearAll s w)) (snd (clearAll s w))))
     = log (snd (clearAll s w))
  /\ next_url (snd (clearAll (fst (clearAll s w)) (snd (clearAll s w))))
     = next_url (snd (clearAll s w)).
Proof.
  pose proof (clearAll_state s w) as V.
  destruct (clearAll s w) as [s1 w1]. cbn [fst snd] in *.
  split.
  - rewrite clearAll_state, V. unfold view in V. now inversion V.
  - unfold view in V. inversion V.
    now apply clearAll_nothing_to_revoke.
Qed.

(** ** The error cell *)

(** [handleFileChange] and [convertImages] start from an empty error
    cell: what they leave in it does not depend on what it held. *)
Lemma add_and_convert_reset_error
    (heic2any : File -> string -> Q -> option Blob) (Date_now : nat -> Z)
    (fs : list File) (s : AppState) (w : World) :
  error (fst (handleFileChange heic2any fs s w)) = snd (filter_files fs None)
  /\ error (fst (convertImages heic2any Date_now s w))
     = last_failure heic2any (outputFormat s) (map file (items (heicFiles s))) None.
Proof.
  split.
  - apply (handleFileChange_state heic2any fs s w).
  - destruct (convertImages_run heic2any Date_now s w) as (new & l & R & _).
    cbv zeta in R. rewrite R. reflexivity.
Qed.

(** C6, at a failing input: [a.heic] converts and [b.heic] does not, so
    the run leaves "Failed to convert b.heic. Please try again."; the
    archive is then bundled and downloaded without a failure, and the
    message of the run is still there.  Likewise the message of a failed
    bundle outlives a later bundle that succeeds. *)
Theorem C6_download_all_keeps_stale_error :
  error (fst (converted (codec_failing_on "b.heic") [a_heic; b_heic]))
  = Some "Failed to convert b.heic. Please try again."
  /\ error (fst (downloadAllImages ok_zip
                   (fst (converted (codec_failing_on "b.heic") [a_heic; b_heic]))
                   (snd (converted (codec_failing_on "b.heic") [a_heic; b_heic]))))
     = Some "Failed to convert b.heic. Please try again."
  /\ In (Click 4%nat "converted-images.zip")
        (log (snd (downloadAllImages ok_zip
                     (fst (converted (codec_failing_on "b.heic") [a_heic; b_heic]))
                     (snd (converted (codec_failing_on "b.heic") [a_heic; b_heic])))))
  /\ error (fst (downloadAllImages ok_zip
                   (fst (downloadAllImages failing_zip
                           (fst (converted ok_codec [a_heic]))
                           (snd (converted ok_codec [a_heic]))))
                   (snd (converted ok_codec [a_heic]))))
     = Some "Failed to create zip file for download.".
Proof.
  split; [reflexivity|]. split; [reflexivity|]. split; [|reflexivity].
  vm_compute. tauto.
Qed.

(** ** Allocation *)

Lemma count_creates_creates (l : list URL) :
  count_creates (map Create l) = List.length l.
Proof. unfold count_creates. induction l; simpl; auto. Qed.

Lemma count_revokes_creates (l : list URL) :
  count_revokes (map Create l) = 0%nat.
Proof. unfold count_revokes. induction l; simpl; auto. Qed.

Lemma after_previews_0 (w : World) : after_previews w 0 = w.
Proof.
  unfold after_previews. destruct w. simpl.
  now rewrite Nat.add_0_r, app_nil_r.
Qed.

(** The previews: three URLs for each that succeeds, no other call. *)
Lemma mapM_make_thumbnail_world (heic2any : File -> string -> Q -> option Blob)
    (l : list File) (w : World) :
  snd (mapM (make_thumbnail heic2any) l w)
  = after_previews w (List.length (filter (previews heic2any) l)).
Proof.
  revert w. induction l as [|f l IH]; intros w.
  - simpl. now rewrite after_previews_0.
  - cbn [mapM filter]. unfold bind at 1. unfold make_thumbnail at 1, previews at 1.
    destruct (heic2any f "image/jpeg" (2 # 10)) as [thumbnailBlob|].
    + unfold bind at 1, createObjectURL at 1.
      unfold bind at 1, createObjectURL at 1.
      unfold bind at 1, createObjectURL at 1.
      unfold ret at 1. unfold bind at 1.
      match goal with
      | |- context [mapM _ l ?w0] =>
          specialize (IH w0); destruct (mapM (make_thumbnail heic2any) l w0) as [ys w1]
      end.
      unfold ret. cbn [snd] in *. subst w1.
      unfold after_previews. cbn [next_url next_ref clock_reads log List.length].
      f_equal; try lia.
      rewrite <- !app_assoc. f_equal. cbn [app].
      replace (3 * S (List.length (filter (previews heic2any) l)))%nat
        with (S (S (S (3 * List.length (filter (previews heic2any) l)))))%nat by lia.
      reflexivity.
    + unfold ret at 1. unfold bind at 1.
      specialize (IH w). destruct (mapM (make_thumbnail heic2any) l w) as [ys w1].
      exact IH.
Qed.

Lemma mapM_make_thumbnail_length (heic2any : File -> string -> Q -> option Blob)
    (l : list File) (w : World) :
  List.length (fst (mapM (make_thumbnail heic2any) l w)) = List.length l.
Proof.
  rewrite <- (length_map file), mapM_make_thumbnail_files. reflexivity.
Qed.

Lemma revocations_setError (e : option string) (s : AppState) :
  revocations (setError e s) = revocations s.
Proof. reflexivity. Qed.

(** [handleFileChange] on a state whose arrays were allocated before:
    the previews, then the clean-up of the render that is replaced. *)
Lemma handleFileChange_world (heic2any : File -> string -> Q -> option Blob)
    (fs : list File) (s : AppState) (w : World) :
  allocated s w ->
  snd (handleFileChange heic2any fs s w)
  = add_log (alloc (after_previews w
                      (List.length (filter (previews heic2any) (filter accepts fs)))))
            (revocations s).
Proof.
  intros [H _]. rewrite handleFileChange_run. cbv zeta.
  rewrite rerender_changed.
  - cbn [snd]. now rewrite mapM_make_thumbnail_world, revocations_setError.
  - rewrite mapM_make_thumbnail_world. unfold same_deps. cbn.
    apply andb_false_iff. left. apply Nat.eqb_neq. lia.
Qed.

Lemma handleFileChange_allocated (heic2any : File -> string -> Q -> option Blob)
    (fs : list File) (s : AppState) (w : World) :
  allocated s w ->
  allocated (fst (handleFileChange heic2any fs s w))
            (snd (handleFileChange heic2any fs s w)).
Proof.
  intros A. rewrite (handleFileChange_world heic2any fs s w A).
  rewrite handleFileChange_run. cbv zeta. rewrite rerender_fst.
  rewrite mapM_make_thumbnail_world. destruct A as [A1 A2].
  unfold allocated. cbn. lia.
Qed.

Lemma clearAll_world (s : AppState) (w : World) :
  allocated s w ->
  snd (clearAll s w)
  = add_log (alloc (alloc (add_log w (revocations s)))) (revocations s).
Proof.
  intros [H _]. rewrite clearAll_run, rerender_changed; [reflexivity|].
  unfold same_deps. cbn. apply andb_false_iff. left. apply Nat.eqb_neq. lia.
Qed.

(** ** Counting the calls of each operation *)

Section Accounting.

Variable heic2any : File -> string -> Q -> option Blob.
Variable Date_now : nat -> Z.

Lemma handleFileChange_counts (fs : list File) (s : AppState) (w : World) :
  allocated s w ->
  count_creates (log (snd (handleFileChange heic2any fs s w)))
  = (count_creates (log w)
     + 3 * List.length (filter (previews heic2any) (filter accepts fs)))%nat
  /\ count_revokes (log (snd (handleFileChange heic2any fs s w)))
     = (count_revokes (log w)
        + List.length (items (heicFiles s))
        + List.length (items (convertedImages s)))%nat.
Proof.
  intros A. rewrite (handleFileChange_world heic2any fs s w A).
  unfold add_log, alloc, after_previews. cbn [log].
  rewrite !count_creates_app, !count_revokes_app.
  rewrite count_creates_creates, count_revokes_creates, length_seq.
  rewrite count_creates_revocations, count_revokes_revocations. lia.
Qed.

Lemma convertImages_allocated (s : AppState) (w : World) :
  allocated s w ->
  allocated (fst (convertImages heic2any Date_now s w))
            (snd (convertImages heic2any Date_now s w)).
Proof.
  intros A.
  destruct (convertImages_run heic2any Date_now s w) as (new & l & R & _).
  cbv zeta in R. rewrite R. destruct A as [A1 A2].
  unfold allocated. cbn. lia.
Qed.

Lemma convertImages_log (s : AppState) (w : World) :
  allocated s w ->
  log (snd (convertImages heic2any Date_now s w))
  = (log w
     ++ revocations s
     ++ map Create
          (seq (next_url w)
               (List.length (items (convertedImages
                                      (fst (convertImages heic2any Date_now s w))))))
     ++ map (fun item => Revoke (thumbnail item)) (items (heicFiles s)))%list
  /\ map url (items (convertedImages (fst (convertImages heic2any Date_now s w))))
     = seq (next_url w)
           (List.length (items (convertedImages
                                  (fst (convertImages heic2any Date_now s w))))).
Proof.
  intros A.
  destruct (convertImages_run heic2any Date_now s w)
    as (new & l & R & _ & Hl & _ & _ & Hu).
  cbv zeta in R. rewrite R. rewrite (Hl A).
  cbn [fst snd convertedImages items setLoading setConvertedImages].
  split; [|exact Hu].
  unfold add_log, alloc, after_conversions, revocations.
  cbn [log next_url heicFiles convertedImages items setError setConvertedImages
       setLoading map].
  rewrite app_nil_r, <- !app_assoc. reflexivity.
Qed.

Lemma convertImages_counts (s : AppState) (w : World) :
  allocated s w ->
  count_creates (log (snd (convertImages heic2any Date_now s w)))
  = (count_creates (log w)
     + List.length (items (convertedImages
                             (fst (convertImages heic2any Date_now s w)))))%nat
  /\ count_revokes (log (snd (convertImages heic2any Date_now s w)))
     = (count_revokes (log w)
        + 2 * List.length (items (heicFiles s))
        + List.length (items (convertedImages s)))%nat.
Proof.
  intros A. destruct (convertImages_log s w A) as [-> _].
  rewrite !count_creates_app, !count_revokes_app.
  rewrite count_creates_creates, count_revokes_creates, length_seq.
  rewrite count_creates_revocations, count_revokes_revocations.
  rewrite count_creates_revokes, count_revokes_revokes. lia.
Qed.

Lemma clearAll_counts (s : AppState) (w : World) :
  allocated s w ->
  count_creates (log (snd (clearAll s w))) = count_creates (log w)
  /\ count_revokes (log (snd (clearAll s w)))
     = (count_revokes (log w)
        + 2 * (List.length (items (heicFiles s))
               + List.length (items (convertedImages s))))%nat.
Proof.
  intros A. rewrite (clearAll_world s w A).
  unfold add_log, alloc. cbn [log].
  rewrite !count_creates_app, !count_revokes_app.
  rewrite count_creates_revocations, count_revokes_revocations. lia.
Qed.

(** Add, convert, clear, from the first render: with [n] accepted files,
    [t] previews and [c] conversions that succeed, there are
    [3 * t + c] calls of [URL.createObjectURL] and [4 * n + 2 * c] calls
    of [URL.revokeObjectURL]. *)
Lemma add_convert_clear_counts (fs : list File) :
  let w := snd (add_convert_clear heic2any Date_now fs init_world) in
  let kept := filter accepts fs in
  count_creates (log w)
  = (3 * List.length (filter (previews heic2any) kept)
     + List.length (filter (converts heic2any jpeg) kept))%nat
  /\ count_revokes (log w)
     = (4 * List.length kept
        + 2 * List.length (filter (converts heic2any jpeg) kept))%nat.
Proof.
  cbv zeta. unfold add_convert_clear, bind.
  assert (A0 : allocated init_state init_world) by (unfold allocated; cbn; lia).
  pose proof (handleFileChange_counts fs init_state init_world A0) as [C1 R1].
  pose proof (handleFileChange_allocated heic2any fs init_state init_world A0) as A1.
  pose proof (handleFileChange_state heic2any fs init_state init_world)
    as (F1 & V1 & O1 & _).
  cbv zeta in F1, V1, O1.
  destruct (handleFileChange heic2any fs init_state init_world) as [s1 w1].
  cbn [fst snd] in *.
  pose proof (convertImages_counts s1 w1 A1) as [C2 R2].
  pose proof (convertImages_allocated s1 w1 A1) as A2.
  destruct (convertImages_run heic2any Date_now s1 w1)
    as (new & l & R & _ & _ & B & _).
  cbv zeta in R.
  assert (H2 : items (heicFiles (fst (convertImages heic2any Date_now s1 w1)))
               = items (heicFiles s1)) by (now rewrite R).
  assert (H3 : items (convertedImages (fst (convertImages heic2any Date_now s1 w1)))
               = new) by (now rewrite R).
  clear R.
  destruct (convertImages heic2any Date_now s1 w1) as [s2 w2].
  cbn [fst snd] in *.
  pose proof (clearAll_counts s2 w2 A2) as [C3 R3].
  rewrite C3, R3, C2, R2, C1, R1, H2, H3, V1.
  rewrite <- (length_map originalFile new), B.
  rewrite O1, F1.
  rewrite <- (length_map file (items (heicFiles s1))), F1.
  cbn [init_state heicFiles convertedImages items map app
    List.length init_world log count_creates count_revokes filter outputFormat].
  lia.
Qed.

End Accounting.

(** As soon as one file is accepted the two counts differ. *)
Lemma add_convert_clear_never_balanced
    (heic2any : File -> string -> Q -> option Blob) (Date_now : nat -> Z)
    (fs : list File) :
  filter accepts fs <> [] ->
  count_creates (log (snd (add_convert_clear heic2any Date_now fs init_world)))
  <> count_revokes (log (snd (add_convert_clear heic2any Date_now fs init_world))).
Proof.
  intros H.
  destruct (add_convert_clear_counts heic2any Date_now fs) as [-> ->].
  pose proof (filter_length_le (previews heic2any) (filter accepts fs)).
  destruct (filter accepts fs); [congruence|]. cbn [List.length] in *. lia.
Qed.

(** C1, at a failing input: one valid file is added, converted and
    cleared, every external call succeeding.  [URL.createObjectURL] is
    called four times and [URL.revokeObjectURL] six times; the two URLs
    made for the log messages of [handleFileChange] are never revoked,
    and the URL of the thumbnail is revoked four times. *)
Theorem C1_add_convert_clear_unbalanced :
  log (snd (add_convert_clear ok_codec sample_clock [a_heic] init_world))
  = [Create 0%nat; Create 1%nat; Create 2%nat;
     Revoke (Some 2%nat);
     Create 3%nat;
     Revoke (Some 2%nat);
     Revoke (Some 2%nat); Revoke (Some 3%nat);
     Revoke (Some 2%nat); Revoke (Some 3%nat)]
  /\ count_creates
       (log (snd (add_convert_clear ok_codec sample_clock [a_heic] init_world)))
     = 4%nat
  /\ count_revokes
       (log (snd (add_convert_clear ok_codec sample_clock [a_heic] init_world)))
     = 6%nat
  /\ ~ revoked_in
         (log (snd (add_convert_clear ok_codec sample_clock [a_heic] init_world)))
         0%nat
  /\ ~ revoked_in
         (log (snd (add_convert_clear ok_codec sample_clock [a_heic] init_world)))
         1%nat.
Proof.
  split; [reflexivity|]. split; [reflexivity|]. split; [reflexivity|].
  split; vm_compute; intros H;
    repeat (destruct H as [H|H]; [discriminate H|]); exact H.
Qed.

(** ** The start of a conversion run *)

(** Two runs in a row: what the second run adds to the log revokes the
    URL of every item the first run made. *)
Lemma second_run_revokes_first_run
    (heic2any : File -> string -> Q -> option Blob) (Date_now : nat -> Z)
    (s : AppState) (w : World) (image : ConvertedItem) :
  allocated s w ->
  In image (items (convertedImages (fst (convertImages heic2any Date_now s w)))) ->
  revoked_in
    (skipn (List.length (log (snd (convertImages heic2any Date_now s w))))
           (log (snd (convertImages heic2any Date_now
                        (fst (convertImages heic2any Date_now s w))
                        (snd (convertImages heic2any Date_now s w))))))
    (url image).
Proof.
  intros A Hin.
  pose proof (convertImages_allocated heic2any Date_now s w A) as A1.
  destruct (convertImages heic2any Date_now s w) as [s1 w1]. cbn [fst snd] in *.
  destruct (convertImages_log heic2any Date_now s1 w1 A1) as [-> _].
  rewrite skipn_app, skipn_all, Nat.sub_diag. cbn [app skipn].
  unfold revoked_in. apply in_or_app. left.
  unfold revocations. apply in_or_app. right.
  apply (in_map (fun image => Revoke (Some (url image)))). exact Hin.
Qed.

(** ** The older component *)

(** Validation there knows the two primary media types only. *)
Lemma legacy_validate_rejects (f : File) :
  (exists reason, Legacy.validate f = Rejected reason) <->
  (~ In (file_type f) ["image/heic"; "image/heif"]
   \/ file_size f > 25 * 1024 * 1024).
Proof.
  unfold Legacy.validate.
  destruct (String.eqb_spec (file_type f) "image/heic") as [E1|E1];
    destruct (String.eqb_spec (file_type f) "image/heif") as [E2|E2];
    cbn [negb andb];
    try (destruct (Z.gtb_spec (file_size f) (MAX_FILE_SIZE_MB * 1024 * 1024));
         unfold MAX_FILE_SIZE_MB in *;
         (split; [intros [r Hr]; try discriminate; right; lia
                 |intros [Hn|Hn]; [exfalso; apply Hn; simpl; auto|]; eauto; lia])).
  split; [|eauto]. intros _. left. simpl. intros [H|[H|[]]]; congruence.
Qed.

Example legacy_vendor_type_rejected :
  Legacy.validate (mkFile "a.heic" "image/x-heic" 1024)
  = Rejected "Unsupported file type: a.heic. Only HEIC/HEIF files are allowed."
  /\ validate (mkFile "a.heic" "image/x-heic" 1024) = Accepted.
Proof. split; reflexivity. Qed.

(** The size bound is the same. *)
Lemma legacy_size_boundary (n : string) :
  Legacy.validate (mkFile n "image/heic" (25 * 1024 * 1024)) = Accepted
  /\ Legacy.validate (mkFile n "image/heif" (25 * 1024 * 1024)) = Accepted
  /\ (forall t : string,
         exists reason,
           Legacy.validate (mkFile n t (25 * 1024 * 1024 + 1)) = Rejected reason).
Proof.
  split; [reflexivity|]. split; [reflexivity|].
  intros t. apply legacy_validate_rejects. right. cbn [file_size]. lia.
Qed.

(** Only a lower-case [.heic] is replaced there. *)
Example legacy_output_names :
  Legacy.output_name jpeg "a.heic" = "a.jpeg"
  /\ Legacy.output_name jpeg "a.HEIC" = "a.HEIC"
  /\ Legacy.output_name png "a.heif" = "a.heif"
  /\ output_name jpeg "a.HEIC" = "a.jpeg"
  /\ output_name png "a.heif" = "a.png".
Proof. repeat split. Qed.

(** The loop there: the same items, and no call but
    [URL.createObjectURL]. *)
Lemma legacy_convert_loop_spec
    (heic2any : File -> string -> Q -> option Blob) (Date_now : nat -> Z)
    (fmt : OutputFormat) (l : list File) :
  forall (acc : list ConvertedItem) (err : option string) (w : World),
  exists new : list ConvertedItem,
    Legacy.convert_loop heic2any Date_now fmt l acc err w
    = ((acc ++ new)%list,
       last_failure heic2any fmt l err,
       after_conversions w (List.length new))
    /\ map originalFile new = filter (converts heic2any fmt) l.
Proof.
  induction l as [|f l IH]; intros acc err w.
  - exists []. simpl. unfold ret, after_conversions, last_failure. simpl.
    rewrite app_nil_r, !Nat.add_0_r. destruct w. simpl. rewrite app_nil_r. auto.
  - cbn [Legacy.convert_loop filter]. unfold last_failure, converts.
    cbn [map filter].
    destruct (heic2any f ("image/" ++ format_string fmt) (9 # 10))
      as [convertedBlob|] eqn:E.
    + unfold bind at 1. unfold createObjectURL at 1.
      unfold bind at 1. unfold now at 1. cbn [negb next_url clock_reads].
      match goal with
      | |- context [Legacy.convert_loop _ _ _ l ?a ?e ?w0] =>
          destruct (IH a e w0) as (new & R & Ho); rewrite R
      end.
      match goal with
      | |- context [((acc ++ [?i]) ++ new)%list] => exists (i :: new)
      end.
      cbn [next_url next_ref clock_reads log] in *.
      split.
      * rewrite <- app_assoc. cbn [app]. f_equal.
        unfold after_conversions. cbn [next_url next_ref clock_reads log List.length].
        f_equal; try lia.
        rewrite <- app_assoc. cbn [seq map app]. reflexivity.
      * cbn [map originalFile]. f_equal. exact Ho.
    + cbn [negb map].
      destruct (IH acc (Some (convert_failed (file_name f))) w) as (new & R & Ho).
      exists new. rewrite R. split; [|auto].
      f_equal. f_equal. unfold last_failure, converts.
      now rewrite last_cons_default.
Qed.

(** A run there is best-effort in the same way, and revokes nothing:
    the URLs of the items it replaces stay alive. *)
Lemma legacy_convertImages
    (heic2any : File -> string -> Q -> option Blob) (Date_now : nat -> Z)
    (s : Legacy.AppState) (w : World) :
  map originalFile
      (Legacy.convertedImages (fst (Legacy.convertImages heic2any Date_now s w)))
  = filter (converts heic2any (Legacy.outputFormat s)) (Legacy.heicFiles s)
  /\ Legacy.error (fst (Legacy.convertImages heic2any Date_now s w))
     = last_failure heic2any (Legacy.outputFormat s) (Legacy.heicFiles s) None
  /\ count_revokes (log (snd (Legacy.convertImages heic2any Date_now s w)))
     = count_revokes (log w).
Proof.
  unfold Legacy.convertImages, bind.
  destruct (legacy_convert_loop_spec heic2any Date_now (Legacy.outputFormat s)
              (Legacy.heicFiles s) [] None w) as (new & R & Ho).
  rewrite R. unfold ret. cbn [fst snd Legacy.convertedImages Legacy.error app].
  split; [exact Ho|]. split; [reflexivity|].
  unfold after_conversions. cbn [log].
  rewrite count_revokes_app, count_revokes_creates. lia.
Qed.

(** A failed bundle there leaves the lists and the browser alone too. *)
Lemma legacy_bundling_failure
    (generateAsync : list (string * Blob) -> option Blob)
    (s : Legacy.AppState) (w : World) :
  (Legacy.convertedImages s = [] ->
   Legacy.downloadAllImages generateAsync s w = (s, w))
  /\ (Legacy.convertedImages s <> [] ->
      generateAsync (zip_of (Legacy.convertedImages s)) = None ->
      Legacy.downloadAllImages generateAsync s w
      = (Legacy.mkState (Legacy.heicFiles s) (Legacy.convertedImages s)
                        (Legacy.outputFormat s) false
                        (Some "Failed to create zip file for download."),
         w)).
Proof.
  unfold Legacy.downloadAllImages. split.
  - intros ->. reflexivity.
  - intros Hne Hz. destruct (Legacy.convertedImages s) eqn:E; [congruence|].
    cbn [List.length Nat.eqb]. rewrite Hz. reflexivity.
Qed.

(** ** Invariants of the reachable states *)

Section Reachable.

Variable heic2any : File -> string -> Q -> option Blob.
Variable generateAsync : list (string * Blob) -> option Blob.
Variable Date_now : nat -> Z.

Lemma downloadAllImages_frame (s : AppState) (w : World) :
  heicFiles (fst (downloadAllImages generateAsync s w)) = heicFiles s
  /\ convertedImages (fst (downloadAllImages generateAsync s w)) = convertedImages s
  /\ next_ref (snd (downloadAllImages generateAsync s w)) = next_ref w
  /\ count_revokes (log (snd (downloadAllImages generateAsync s w)))
     = count_revokes (log w).
Proof.
  unfold downloadAllImages.
  destruct (List.length (items (convertedImages s)) =? 0)%nat; [auto|].
  unfold bind, createObjectURL, emit.
  rewrite (rerender_same s (setLoading true s) w) by reflexivity.
  destruct (generateAsync (zip_of (items (convertedImages s)))).
  - rewrite rerender_same by reflexivity.
    cbn [fst snd heicFiles convertedImages setLoading next_ref log add_log].
    rewrite !count_revokes_app. cbn. repeat split; lia.
  - rewrite rerender_same by reflexivity. cbn. auto.
Qed.

Lemma clearAll_allocated (s : AppState) (w : World) :
  allocated (fst (clearAll s w)) (snd (clearAll s w)).
Proof.
  rewrite clearAll_run.
  match goal with
  | |- context [rerender ?p ?n ?w0] =>
      destruct (rerender_world p n w0) as (l & Hw & _);
      rewrite (rerender_fst p n w0), Hw
  end.
  unfold allocated. cbn. lia.
Qed.

(** The arrays of a reachable state were allocated before: a new array
    is always another one. *)
Lemma reachable_allocated (s : AppState) (w : World) :
  reachable heic2any generateAsync Date_now s w -> allocated s w.
Proof.
  induction 1 as [|s w fs _ IH|s w fmt _ IH|s w _ IH _ _|s w image _ IH _
                  |s w _ IH _ _|s w _ IH _].
  - unfold allocated. cbn. lia.
  - now apply handleFileChange_allocated.
  - exact IH.
  - now apply convertImages_allocated.
  - exact IH.
  - unfold allocated in *.
    destruct (downloadAllImages_frame s w) as (-> & -> & -> & _). exact IH.
  - apply clearAll_allocated.
Qed.

(** Every accepted file of a reachable state passed validation. *)
Lemma reachable_accepted_valid (s : AppState) (w : World) :
  reachable heic2any generateAsync Date_now s w ->
  Forall (fun f => validate f = Accepted) (map file (items (heicFiles s))).
Proof.
  assert (V : forall f, accepts f = true -> validate f = Accepted)
    by (intros f; unfold accepts; destruct (validate f); [reflexivity|discriminate]).
  induction 1 as [|s w fs _ IH|s w fmt _ IH|s w _ IH _ _|s w image _ IH _
                  |s w _ IH _ _|s w _ IH _].
  - constructor.
  - destruct (handleFileChange_state heic2any fs s w) as (-> & _).
    apply Forall_app. split; [exact IH|].
    apply Forall_forall. intros f Hf. apply filter_In in Hf. now apply V.
  - exact IH.
  - destruct (convertImages_run heic2any Date_now s w) as (new & l & R & _).
    cbv zeta in R. rewrite R. exact IH.
  - exact IH.
  - destruct (downloadAllImages_frame s w) as (-> & _). exact IH.
  - pose proof (clearAll_state s w) as E. unfold view in E.
    inversion E as [[E1 E2 E3]]. rewrite E1. constructor.
Qed.

End Reachable.

(** [handleFileChange] there appends the files that pass its own
    validation. *)
Lemma legacy_handleFileChange_state (fs : list File) (s : Legacy.AppState) :
  Legacy.heicFiles (Legacy.handleFileChange fs s)
  = (Legacy.heicFiles s
     ++ filter (fun f => match Legacy.validate f with
                         | Accepted => true
                         | Rejected _ => false
                         end) fs)%list
  /\ Legacy.convertedImages (Legacy.handleFileChange fs s) = Legacy.convertedImages s.
Proof.
  unfold Legacy.handleFileChange.
  assert (K : forall err,
             fst (Legacy.filter_files fs err)
             = filter (fun f => match Legacy.validate f with
                                | Accepted => true
                                | Rejected _ => false
                                end) fs).
  { induction fs as [|f fs IH]; intros err; simpl; [reflexivity|].
    destruct (Legacy.validate f).
    - specialize (IH err). destruct (Legacy.filter_files fs err).
      simpl in *. now rewrite IH.
    - apply IH. }
  specialize (K None). destruct (Legacy.filter_files fs None) as [kept err].
  simpl in K. subst kept. split; reflexivity.
Qed.

(** * Further properties of the component *)

(** ** Adding files *)

Lemma mapM_make_thumbnail_previews (heic2any : File -> string -> Q -> option Blob)
    (l : list File) (w : World) :
  map has_thumbnail (fst (mapM (make_thumbnail heic2any) l w))
  = map (previews heic2any) l.
Proof.
  revert w. induction l as [|f l IH]; intros w; [reflexivity|].
  cbn [mapM map]. unfold bind at 1.
  destruct (make_thumbnail heic2any f w) as [a w1] eqn:E.
  unfold bind at 1. specialize (IH w1).
  destruct (mapM (make_thumbnail heic2any) l w1) as [ys w2].
  unfold ret. cbn [fst map] in *. f_equal; [|exact IH].
  unfold make_thumbnail in E. unfold previews.
  destruct (heic2any f "image/jpeg" (2 # 10)).
  - unfold bind, createObjectURL, ret in E. simpl in E. now inversion E.
  - unfold ret in E. now inversion E.
Qed.

(** Of the three URLs made for a preview, the third is the one kept. *)
Lemma mapM_make_thumbnail_urls (heic2any : File -> string -> Q -> option Blob)
    (l : list File) (w : World) :
  thumbnail_urls (fst (mapM (make_thumbnail heic2any) l w))
  = map (fun k => (next_url w + 3 * k + 2)%nat)
        (seq 0 (List.length (filter (previews heic2any) l))).
Proof.
  revert w. induction l as [|f l IH]; intros w; [reflexivity|].
  cbn [mapM filter]. unfold bind at 1.
  unfold make_thumbnail at 1, previews at 1.
  destruct (heic2any f "image/jpeg" (2 # 10)) as [thumbnailBlob|].
  - unfold bind at 1, createObjectURL at 1.
    unfold bind at 1, createObjectURL at 1.
    unfold bind at 1, createObjectURL at 1.
    unfold ret at 1. unfold bind at 1.
    match goal with
    | |- context [mapM _ l ?w0] =>
        specialize (IH w0); destruct (mapM (make_thumbnail heic2any) l w0) as [ys w1]
    end.
    unfold ret. cbn [fst next_url] in *.
    unfold thumbnail_urls in *. cbn [flat_map thumbnail app List.length seq map].
    rewrite IH. f_equal; [lia|].
    rewrite <- seq_shift, map_map. apply map_ext. intros k. lia.
  - unfold ret at 1. unfold bind at 1.
    specialize (IH w). destruct (mapM (make_thumbnail heic2any) l w) as [ys w1].
    unfold ret. cbn [fst] in *. unfold thumbnail_urls in *.
    cbn [flat_map thumbnail app]. exact IH.
Qed.

Lemma filter_files_error (fs : list File) (err : option string) :
  snd (filter_files fs err)
  = last (map (fun f => match validate f with
                        | Rejected reason => Some reason
                        | Accepted => None
                        end)
              (filter (fun f => negb (accepts f)) fs))
         err.
Proof.
  revert err. induction fs as [|f fs IH]; intros err; [reflexivity|].
  cbn [filter_files filter]. unfold accepts at 1.
  destruct (validate f) as [|reason] eqn:V.
  - specialize (IH err). destruct (filter_files fs err). cbn [negb snd] in *.
    exact IH.
  - cbn [negb map]. rewrite V, last_cons_default. apply IH.
Qed.

(** X1: [handleFileChange] keeps the items it had and appends one item
    for each file of the batch that passes validation, in the order of
    the batch; the item has a thumbnail exactly when the preview of its
    file succeeded, so a preview that fails costs neither the file nor
    the rest of the batch.  The converted list, the output format and
    the loading flag are left alone. *)
Theorem X1_add_appends_one_item_per_accepted_file
    (heic2any : File -> string -> Q -> option Blob)
    (fs : list File) (s : AppState) (w : World) :
  exists new : list AcceptedItem,
    items (heicFiles (fst (handleFileChange heic2any fs s w)))
    = (items (heicFiles s) ++ new)%list
    /\ map file new = filter accepts fs
    /\ map has_thumbnail new = map (previews heic2any) (filter accepts fs)
    /\ convertedImages (fst (handleFileChange heic2any fs s w)) = convertedImages s
    /\ outputFormat (fst (handleFileChange heic2any fs s w)) = outputFormat s
    /\ loading (fst (handleFileChange heic2any fs s w)) = loading s.
Proof.
  exists (fst (mapM (make_thumbnail heic2any) (filter accepts fs) w)).
  rewrite handleFileChange_run. cbv zeta. rewrite rerender_fst.
  cbn [heicFiles convertedImages outputFormat loading items setHeicFiles setError].
  rewrite mapM_make_thumbnail_files, mapM_make_thumbnail_previews. auto 10.
Qed.

(** X2: after [handleFileChange] the error cell does not depend on what
    it held before: it is empty when no file of the batch is rejected,
    and otherwise it holds the reason of the last rejected file of the
    batch, which is one of the two messages and carries the name of
    that file. *)
Theorem X2_add_reports_last_rejection
    (heic2any : File -> string -> Q -> option Blob)
    (fs : list File) (s : AppState) (w : World) :
  (filter (fun f => negb (accepts f)) fs = [] ->
   error (fst (handleFileChange heic2any fs s w)) = None)
  /\ (forall (before : list File) (f : File),
         filter (fun f => negb (accepts f)) fs = (before ++ [f])%list ->
         exists reason,
           error (fst (handleFileChange heic2any fs s w)) = Some reason
           /\ validate f = Rejected reason
           /\ (reason = "Unsupported file type: " ++ file_name f
                        ++ ". Only HEIC/HEIF files are allowed."
               \/ reason = "File " ++ file_name f
                           ++ " is too large. Max file size is 25MB.")).
Proof.
  destruct (handleFileChange_state heic2any fs s w) as (_ & _ & _ & _ & E).
  cbv zeta in E. rewrite E, filter_files_error. split.
  - intros ->. reflexivity.
  - intros before f R. rewrite R, map_app. cbn [map]. rewrite last_last.
    assert (Hf : In f (filter (fun f => negb (accepts f)) fs))
      by (rewrite R; apply in_or_app; right; simpl; auto).
    apply filter_In in Hf. destruct Hf as [_ Hf].
    unfold accepts in Hf. unfold validate in *.
    destruct (negb (includes allowed_types (file_type f))).
    + eexists. split; [reflexivity|]. split; [reflexivity|]. left. reflexivity.
    + destruct (file_size f >? MAX_FILE_SIZE_MB * 1024 * 1024); [|discriminate].
      eexists. split; [reflexivity|]. split; [reflexivity|]. right. reflexivity.
Qed.

(** ** What each operation adds to the log *)

Lemma added_log_app (w w' : World) (l : list Event) :
  log w' = (log w ++ l)%list -> added_log w w' = l.
Proof.
  intros E. unfold added_log. rewrite E, skipn_app, skipn_all, Nat.sub_diag.
  reflexivity.
Qed.

Lemma in_thumbnail_urls (u : URL) (l : list AcceptedItem) :
  In u (thumbnail_urls l) <-> exists item, In item l /\ thumbnail item = Some u.
Proof.
  unfold thumbnail_urls. rewrite in_flat_map. split.
  - intros (item & Hin & Hu). exists item. split; [exact Hin|].
    destruct (thumbnail item); simpl in Hu; [|contradiction].
    destruct Hu as [->|[]]. reflexivity.
  - intros (item & Hin & Hu). exists item. split; [exact Hin|].
    rewrite Hu. simpl. auto.
Qed.

(** The clean-up of a render revokes the URLs that render holds, and
    no other. *)
Lemma revoked_in_revocations (s : AppState) (u : URL) :
  In (Revoke (Some u)) (revocations s) <-> In u (held_urls s).
Proof.
  unfold revocations, held_urls. rewrite !in_app_iff, in_thumbnail_urls, !in_map_iff.
  split.
  - intros [(item & E & Hin)|(image & E & Hin)].
    + left. exists item. split; [exact Hin|]. now inversion E.
    + right. exists image. split; [|exact Hin]. now inversion E.
  - intros [(item & Hin & E)|(image & E & Hin)].
    + left. exists item. split; [now rewrite E|exact Hin].
    + right. exists image. split; [now rewrite E|exact Hin].
Qed.

Lemma created_urls_app (l1 l2 : list Event) :
  created_urls (l1 ++ l2) = (created_urls l1 ++ created_urls l2)%list.
Proof. apply flat_map_app. Qed.

Lemma created_urls_creates (l : list URL) : created_urls (map Create l) = l.
Proof. induction l as [|u l IH]; simpl; [reflexivity|]. now rewrite IH. Qed.

Lemma created_urls_revokes {A} (g : A -> option URL) (l : list A) :
  created_urls (map (fun x => Revoke (g x)) l) = [].
Proof. induction l; simpl; auto. Qed.

Lemma created_urls_revocations (s : AppState) : created_urls (revocations s) = [].
Proof.
  unfold revocations. now rewrite created_urls_app, !created_urls_revokes.
Qed.

Lemma not_revoke_in_creates (u : option URL) (l : list URL) :
  ~ In (Revoke u) (map Create l).
Proof. intros H. apply in_map_iff in H. destruct H as (x & E & _). discriminate. Qed.

Lemma NoDup_app_disjoint {A} (l1 l2 : list A) (a : A) :
  NoDup (l1 ++ l2) -> In a l1 -> ~ In a l2.
Proof.
  induction l1 as [|x l1 IH]; simpl; intros H Hin; [contradiction|].
  inversion H as [|? ? Hx Hl]; subst. destruct Hin as [->|Hin].
  - intros Ha. apply Hx. apply in_or_app. now right.
  - now apply IH.
Qed.

Lemma NoDup_map_injective {A B} (f : A -> B) (l : list A) :
  (forall a b, f a = f b -> a = b) -> NoDup l -> NoDup (map f l).
Proof.
  intros Hf. induction 1 as [|x l Hx Hl IH]; simpl; constructor; [|exact IH].
  intros Hin. apply in_map_iff in Hin. destruct Hin as (y & Hy & Hin).
  apply Hf in Hy. now subst.
Qed.

(** [downloadAllImages], run. *)
Lemma downloadAllImages_run
    (generateAsync : list (string * Blob) -> option Blob) (s : AppState) (w : World) :
  downloadAllImages generateAsync s w
  = match items (convertedImages s) with
    | [] => (s, w)
    | _ :: _ =>
        match generateAsync (zip_of (items (convertedImages s))) with
        | Some _ =>
            (setLoading false s,
             mkWorld (S (next_url w)) (next_ref w) (clock_reads w)
                     (log w ++ [Create (next_url w);
                                Click (next_url w) "converted-images.zip"]))
        | None => (setLoading false (setError (Some zip_failed) s), w)
        end
    end.
Proof.
  unfold downloadAllImages.
  destruct (items (convertedImages s)) as [|image rest] eqn:E; [reflexivity|].
  cbn [List.length Nat.eqb]. unfold bind at 1.
  rewrite rerender_same by reflexivity.
  destruct (generateAsync (zip_of (image :: rest))).
  - unfold bind, createObjectURL, emit, add_log.
    rewrite rerender_same by reflexivity.
    cbn [next_url next_ref clock_reads log]. rewrite <- app_assoc. reflexivity.
  - rewrite rerender_same by reflexivity. reflexivity.
Qed.

(** [convertImages], run on a state whose arrays were allocated. *)
Lemma convertImages_allocated_run
    (heic2any : File -> string -> Q -> option Blob) (Date_now : nat -> Z)
    (s : AppState) (w : World) :
  allocated s w ->
  exists new : list ConvertedItem,
    convertImages heic2any Date_now s w
    = (mkState (heicFiles s) (mkArray (S (next_ref w)) new) (outputFormat s) false
               (last_failure heic2any (outputFormat s)
                             (map file (items (heicFiles s))) None),
       mkWorld (next_url w + List.length new) (S (S (next_ref w)))
               (clock_reads w + List.length new)
               (log w ++ revocations s
                ++ map Create (seq (next_url w) (List.length new))
                ++ map (fun item => Revoke (thumbnail item)) (items (heicFiles s))))
    /\ map url new = seq (next_url w) (List.length new)
    /\ map originalFile new
       = filter (converts heic2any (outputFormat s)) (map file (items (heicFiles s))).
Proof.
  intros A.
  destruct (convertImages_run heic2any Date_now s w)
    as (new & l & R & _ & Hl & Ho & _ & Hu).
  cbv zeta in R. rewrite (Hl A) in R. exists new. rewrite R.
  split; [|split; [exact Hu|exact Ho]].
  f_equal. unfold add_log, alloc, after_conversions, revocations.
  cbn [log next_url next_ref clock_reads heicFiles convertedImages items setError
       setConvertedImages setLoading map].
  rewrite app_nil_r, <- !app_assoc. reflexivity.
Qed.

(** ** The URLs held, created and revoked *)

Lemma handleFileChange_held (heic2any : File -> string -> Q -> option Blob)
    (fs : list File) (s : AppState) (w : World) :
  held_urls (fst (handleFileChange heic2any fs s w))
  = ((thumbnail_urls (items (heicFiles s))
      ++ map (fun k => (next_url w + 3 * k + 2)%nat)
             (seq 0 (List.length (filter (previews heic2any) (filter accepts fs)))))
     ++ map url (items (convertedImages s)))%list.
Proof.
  rewrite handleFileChange_run. cbv zeta. rewrite rerender_fst.
  unfold held_urls.
  cbn [heicFiles convertedImages items setHeicFiles setError].
  unfold thumbnail_urls at 1. rewrite flat_map_app.
  fold (thumbnail_urls (items (heicFiles s))).
  fold (thumbnail_urls (fst (mapM (make_thumbnail heic2any) (filter accepts fs) w))).
  now rewrite mapM_make_thumbnail_urls.
Qed.

Section Consistency.

Variable heic2any : File -> string -> Q -> option Blob.
Variable generateAsync : list (string * Blob) -> option Blob.
Variable Date_now : nat -> Z.

Lemma init_consistent : consistent init_state init_world.
Proof.
  unfold consistent. cbn. repeat split; try lia; try constructor;
    intros u H; contradiction.
Qed.

Lemma handleFileChange_consistent (fs : list File) (s : AppState) (w : World) :
  consistent s w ->
  consistent (fst (handleFileChange heic2any fs s w))
             (snd (handleFileChange heic2any fs s w)).
Proof.
  intros (A & N & B & R & C).
  pose proof (handleFileChange_allocated heic2any fs s w A) as A'.
  unfold consistent. split; [exact A'|].
  rewrite handleFileChange_held, (handleFileChange_world heic2any fs s w A).
  set (t := List.length (filter (previews heic2any) (filter accepts fs))).
  cbn [next_url log add_log alloc after_previews].
  assert (Bt : forall u, In u (thumbnail_urls (items (heicFiles s))) ->
                         (u < next_url w)%nat)
    by (intros u Hu; apply B; unfold held_urls; apply in_or_app; now left).
  assert (Bc : forall u, In u (map url (items (convertedImages s))) ->
                         (u < next_url w)%nat)
    by (intros u Hu; apply B; unfold held_urls; apply in_or_app; now right).
  assert (Fresh : forall u,
             In u (map (fun k => (next_url w + 3 * k + 2)%nat) (seq 0 t)) ->
             (next_url w <= u < next_url w + 3 * t)%nat).
  { intros u Hu. apply in_map_iff in Hu. destruct Hu as (k & <- & Hk).
    apply in_seq in Hk. lia. }
  split; [|split; [|split]].
  - apply NoDup_app.
    + apply NoDup_app.
      * exact (NoDup_app_remove_r _ _ N).
      * apply NoDup_map_injective; [|apply seq_NoDup].
        intros a b Hab. lia.
      * intros u Hu Hn. apply Bt in Hu. apply Fresh in Hn. lia.
    + exact (NoDup_app_remove_l _ _ N).
    + intros u Hu Hc. apply in_app_or in Hu. destruct Hu as [Hu|Hu].
      * exact (NoDup_app_disjoint _ _ u N Hu Hc).
      * apply Fresh in Hu. apply Bc in Hc. lia.
  - intros u Hu. apply in_app_or in Hu. destruct Hu as [Hu|Hu].
    + apply in_app_or in Hu. destruct Hu as [Hu|Hu].
      * apply Bt in Hu. lia.
      * apply Fresh in Hu. lia.
    + apply Bc in Hu. lia.
  - intros u Hu. apply in_app_or in Hu. destruct Hu as [Hu|Hu].
    + apply in_app_or in Hu. destruct Hu as [Hu|Hu].
      * apply R in Hu. lia.
      * now apply not_revoke_in_creates in Hu.
    + apply revoked_in_revocations in Hu. apply B in Hu. lia.
  - rewrite !created_urls_app, created_urls_creates, created_urls_revocations, C.
    rewrite app_nil_r. symmetry. apply seq_app.
Qed.

Lemma convertImages_consistent (s : AppState) (w : World) :
  consistent s w ->
  consistent (fst (convertImages heic2any Date_now s w))
             (snd (convertImages heic2any Date_now s w)).
Proof.
  intros (A & N & B & R & C).
  destruct (convertImages_allocated_run heic2any Date_now s w A)
    as (new & E & Hu & _).
  rewrite E. unfold consistent, held_urls.
  cbn [fst snd heicFiles convertedImages items next_url next_ref log ref].
  rewrite Hu.
  assert (Bt : forall u, In u (thumbnail_urls (items (heicFiles s))) ->
                         (u < next_url w)%nat)
    by (intros u Hin; apply B; unfold held_urls; apply in_or_app; now left).
  destruct A as [A1 A2].
  split; [split; lia|]. split; [|split; [|split]].
  - apply NoDup_app.
    + exact (NoDup_app_remove_r _ _ N).
    + apply seq_NoDup.
    + intros u H1 H2. apply Bt in H1. apply in_seq in H2. lia.
  - intros u H. apply in_app_or in H. destruct H as [H|H].
    + apply Bt in H. lia.
    + apply in_seq in H. lia.
  - intros u H. apply in_app_or in H. destruct H as [H|H]; [apply R in H; lia|].
    apply in_app_or in H. destruct H as [H|H].
    { apply revoked_in_revocations in H. apply B in H. lia. }
    apply in_app_or in H. destruct H as [H|H].
    { now apply not_revoke_in_creates in H. }
    apply in_map_iff in H. destruct H as (item & Ei & Hi).
    assert (In u (thumbnail_urls (items (heicFiles s)))).
    { apply in_thumbnail_urls. exists item. split; [exact Hi|]. now inversion Ei. }
    apply Bt in H. lia.
  - rewrite !created_urls_app, created_urls_creates, created_urls_revocations,
      created_urls_revokes, C.
    rewrite app_nil_r. cbn [app]. symmetry. apply seq_app.
Qed.

Lemma downloadAllImages_consistent (s : AppState) (w : World) :
  consistent s w ->
  consistent (fst (downloadAllImages generateAsync s w))
             (snd (downloadAllImages generateAsync s w)).
Proof.
  intros (A & N & B & R & C). rewrite downloadAllImages_run.
  destruct (items (convertedImages s)) as [|image rest] eqn:E.
  - unfold consistent. auto.
  - destruct (generateAsync (zip_of (image :: rest))).
    + unfold consistent, held_urls in *.
      cbn [fst snd heicFiles convertedImages setLoading next_url next_ref log].
      split; [exact A|]. split; [exact N|]. split; [|split].
      * intros u Hu. apply B in Hu. lia.
      * intros u Hu. apply in_app_or in Hu. destruct Hu as [Hu|Hu].
        -- apply R in Hu. lia.
        -- destruct Hu as [Hu|[Hu|[]]]; discriminate.
      * rewrite created_urls_app, C. cbn [created_urls flat_map app].
        rewrite <- seq_S. reflexivity.
    + unfold consistent, held_urls in *. cbn [fst snd]. auto.
Qed.

Lemma clearAll_consistent (s : AppState) (w : World) :
  consistent s w ->
  consistent (fst (clearAll s w)) (snd (clearAll s w)).
Proof.
  intros (A & N & B & R & C).
  pose proof (clearAll_allocated s w) as A'.
  rewrite (clearAll_world s w A) in *.
  rewrite clearAll_run, rerender_fst in *.
  unfold consistent, held_urls.
  cbn [fst snd heicFiles convertedImages items setError setConvertedImages
       setHeicFiles next_url log add_log alloc thumbnail_urls flat_map map app].
  split; [exact A'|]. split; [constructor|]. split; [intros u []|]. split.
  - intros u Hu. apply in_app_or in Hu. destruct Hu as [Hu|Hu].
    + apply in_app_or in Hu. destruct Hu as [Hu|Hu]; [now apply R|].
      apply revoked_in_revocations in Hu. now apply B.
    + apply revoked_in_revocations in Hu. now apply B.
  - now rewrite !created_urls_app, !created_urls_revocations, !app_nil_r.
Qed.

(** Every reachable state fits its world. *)
Lemma reachable_consistent (s : AppState) (w : World) :
  reachable heic2any generateAsync Date_now s w -> consistent s w.
Proof.
  induction 1 as [|s w fs _ IH|s w fmt _ IH|s w _ IH _ _|s w image _ IH _
                  |s w _ IH _ _|s w _ IH _].
  - apply init_consistent.
  - now apply handleFileChange_consistent.
  - exact IH.
  - now apply convertImages_consistent.
  - destruct IH as (A & N & B & R & C).
    unfold consistent, downloadImage, emit, add_log.
    cbn [snd next_url next_ref log].
    split; [exact A|]. split; [exact N|]. split; [exact B|]. split.
    + intros u Hu. apply in_app_or in Hu.
      destruct Hu as [Hu|[Hu|[]]]; [now apply R|discriminate].
    + rewrite created_urls_app, C. cbn. now rewrite app_nil_r.
  - now apply downloadAllImages_consistent.
  - now apply clearAll_consistent.
Qed.

End Consistency.

(** ** No operation revokes what the state does not hold *)

Section Frames.

Variable heic2any : File -> string -> Q -> option Blob.
Variable generateAsync : list (string * Blob) -> option Blob.
Variable Date_now : nat -> Z.

Lemma handleFileChange_frame (fs : list File) (s : AppState) (w : World) :
  allocated s w ->
  frame s w (fst (handleFileChange heic2any fs s w))
            (snd (handleFileChange heic2any fs s w)).
Proof.
  intros A. unfold frame.
  rewrite handleFileChange_held, (handleFileChange_world heic2any fs s w A).
  cbn [next_url log add_log alloc after_previews].
  split; [lia|]. split.
  - intros u Hu. unfold held_urls. rewrite in_app_iff.
    apply in_app_or in Hu. destruct Hu as [Hu|Hu]; [|auto].
    apply in_app_or in Hu. destruct Hu as [Hu|Hu]; [auto|].
    right. apply in_map_iff in Hu. destruct Hu as (k & <- & _). lia.
  - intros u Hu. apply in_app_or in Hu. destruct Hu as [Hu|Hu].
    + apply in_app_or in Hu. destruct Hu as [Hu|Hu]; [auto|].
      now apply not_revoke_in_creates in Hu.
    + right. now apply revoked_in_revocations.
Qed.

Lemma convertImages_frame (s : AppState) (w : World) :
  allocated s w ->
  frame s w (fst (convertImages heic2any Date_now s w))
            (snd (convertImages heic2any Date_now s w)).
Proof.
  intros A.
  destruct (convertImages_allocated_run heic2any Date_now s w A)
    as (new & E & Hu & _).
  rewrite E. unfold frame, held_urls.
  cbn [fst snd heicFiles convertedImages items next_url log]. rewrite Hu.
  split; [lia|]. split.
  - intros u H. rewrite in_app_iff. apply in_app_or in H.
    destruct H as [H|H]; [auto|]. right. apply in_seq in H. lia.
  - intros u H. apply in_app_or in H. destruct H as [H|H]; [auto|]. right.
    apply in_app_or in H. destruct H as [H|H].
    { now apply revoked_in_revocations. }
    apply in_app_or in H. destruct H as [H|H].
    { now apply not_revoke_in_creates in H. }
    apply in_map_iff in H. destruct H as (item & Ei & Hi).
    apply in_or_app. left. apply in_thumbnail_urls.
    exists item. split; [exact Hi|]. now inversion Ei.
Qed.

Lemma downloadAllImages_frame_urls (s : AppState) (w : World) :
  frame s w (fst (downloadAllImages generateAsync s w))
            (snd (downloadAllImages generateAsync s w)).
Proof.
  rewrite downloadAllImages_run. unfold frame.
  destruct (items (convertedImages s)) as [|image rest] eqn:E.
  - cbn [fst snd]. auto.
  - destruct (generateAsync (zip_of (image :: rest))); cbn [fst snd next_url log].
    + split; [lia|]. split; [auto|].
      intros u Hu. apply in_app_or in Hu.
      destruct Hu as [Hu|[Hu|[Hu|[]]]]; [auto|discriminate|discriminate].
    + auto.
Qed.

Lemma clearAll_frame (s : AppState) (w : World) :
  allocated s w ->
  frame s w (fst (clearAll s w)) (snd (clearAll s w)).
Proof.
  intros A. unfold frame. rewrite (clearAll_world s w A).
  rewrite clearAll_run, rerender_fst.
  cbn [next_url log add_log alloc]. split; [lia|]. split.
  - unfold held_urls at 1.
    cbn [heicFiles convertedImages items setError setConvertedImages setHeicFiles
         thumbnail_urls flat_map map app].
    intros u [].
  - intros u Hu. apply in_app_or in Hu. destruct Hu as [Hu|Hu].
    + apply in_app_or in Hu. destruct Hu as [Hu|Hu]; [auto|].
      right. now apply revoked_in_revocations.
    + right. now apply revoked_in_revocations.
Qed.

(** The page goes from consistent states to consistent states. *)
Lemma steps_consistent (s0 : AppState) (w0 : World) (s : AppState) (w : World) :
  consistent s0 w0 ->
  steps heic2any generateAsync Date_now s0 w0 s w -> consistent s w.
Proof.
  intros C0.
  induction 1 as [|s w fs _ IH|s w fmt _ IH|s w _ IH _ _|s w image _ IH _
                  |s w _ IH _ _|s w _ IH _].
  - exact C0.
  - now apply handleFileChange_consistent.
  - exact IH.
  - now apply convertImages_consistent.
  - destruct IH as (A & N & B & R & C).
    unfold consistent, downloadImage, emit, add_log.
    cbn [snd next_url next_ref log].
    split; [exact A|]. split; [exact N|]. split; [exact B|]. split.
    + intros u Hu. apply in_app_or in Hu.
      destruct Hu as [Hu|[Hu|[]]]; [now apply R|discriminate].
    + rewrite created_urls_app, C. cbn. now rewrite app_nil_r.
  - now apply downloadAllImages_consistent.
  - now apply clearAll_consistent.
Qed.

(** A URL that was handed out, that the state does not hold and that
    was not revoked stays so, whatever the page does. *)
Lemma steps_keep_unheld_unrevoked (s0 : AppState) (w0 : World)
    (s : AppState) (w : World) (u : URL) :
  consistent s0 w0 ->
  (u < next_url w0)%nat -> ~ In u (held_urls s0) ->
  ~ In (Revoke (Some u)) (log w0) ->
  steps heic2any generateAsync Date_now s0 w0 s w ->
  (u < next_url w)%nat /\ ~ In u (held_urls s) /\ ~ In (Revoke (Some u)) (log w).
Proof.
  intros C0 Hu Hh Hr St.
  assert (Keep : forall s w s' w',
             frame s w s' w' ->
             (u < next_url w)%nat /\ ~ In u (held_urls s)
             /\ ~ In (Revoke (Some u)) (log w) ->
             (u < next_url w')%nat /\ ~ In u (held_urls s')
             /\ ~ In (Revoke (Some u)) (log w')).
  { intros s1 w1 s2 w2 (F1 & F2 & F3) (K1 & K2 & K3).
    split; [lia|]. split.
    - intros H. destruct (F2 u H) as [H'|H']; [contradiction|lia].
    - intros H. destruct (F3 u H) as [H'|H']; contradiction. }
  induction St as [|s w fs St IH|s w fmt St IH|s w St IH _ _|s w image St IH _
                   |s w St IH _ _|s w St IH _].
  - auto.
  - pose proof (steps_consistent s0 w0 s w C0 St) as (A & _).
    exact (Keep _ _ _ _ (handleFileChange_frame fs s w A) IH).
  - exact IH.
  - pose proof (steps_consistent s0 w0 s w C0 St) as (A & _).
    exact (Keep _ _ _ _ (convertImages_frame s w A) IH).
  - destruct IH as (K1 & K2 & K3).
    unfold downloadImage, emit, add_log. cbn [snd next_url log].
    split; [exact K1|]. split; [exact K2|].
    intros H. apply in_app_or in H. destruct H as [H|[H|[]]];
      [contradiction|discriminate].
  - exact (Keep _ _ _ _ (downloadAllImages_frame_urls s w) IH).
  - pose proof (steps_consistent s0 w0 s w C0 St) as (A & _).
    exact (Keep _ _ _ _ (clearAll_frame s w A) IH).
Qed.

End Frames.

Lemma in_created_urls (u : URL) (l : list Event) :
  In u (created_urls l) <-> In (Create u) l.
Proof.
  unfold created_urls. rewrite in_flat_map. split.
  - intros (e & He & Hu). destruct e; simpl in Hu; try contradiction.
    destruct Hu as [->|[]]. exact He.
  - intros H. exists (Create u). split; [exact H|]. simpl. auto.
Qed.

Lemma unmount_run (s : AppState) (w : World) :
  unmount s w = (tt, add_log w (revocations s)).
Proof. apply cleanup_spec. Qed.

(** X4: on a state whose arrays were allocated before,
    [handleFileChange] adds to the log the creations of the previews
    and then the clean-up of the render it replaces: every URL the
    state held, thumbnail or converted image, is revoked, and the state
    still holds it afterwards.  This is so for any batch, also one in
    which no file is accepted. *)
Theorem X4_add_revokes_urls_still_shown
    (heic2any : File -> string -> Q -> option Blob)
    (fs : list File) (s : AppState) (w : World) :
  allocated s w ->
  added_log w (snd (handleFileChange heic2any fs s w))
  = (map Create
         (seq (next_url w)
              (3 * List.length (filter (previews heic2any) (filter accepts fs))))
     ++ revocations s)%list
  /\ (forall u, In u (held_urls s) ->
                In u (held_urls (fst (handleFileChange heic2any fs s w)))
                /\ revoked_in (added_log w (snd (handleFileChange heic2any fs s w))) u).
Proof.
  intros A.
  assert (E : added_log w (snd (handleFileChange heic2any fs s w))
              = (map Create
                     (seq (next_url w)
                          (3 * List.length (filter (previews heic2any)
                                                   (filter accepts fs))))
                 ++ revocations s)%list).
  { apply added_log_app. rewrite (handleFileChange_world heic2any fs s w A).
    cbn [log add_log alloc after_previews]. now rewrite app_assoc. }
  split; [exact E|]. intros u Hu. split.
  - rewrite handleFileChange_held. unfold held_urls in Hu.
    apply in_app_or in Hu. rewrite !in_app_iff. tauto.
  - rewrite E. unfold revoked_in. apply in_or_app. right.
    now apply revoked_in_revocations.
Qed.

Lemma X4_add_revokes_urls_still_shown_witness :
  held_urls (fst (converted ok_codec [a_heic])) = [2%nat; 3%nat]
  /\ held_urls (fst (handleFileChange ok_codec [] (fst (converted ok_codec [a_heic]))
                                       (snd (converted ok_codec [a_heic]))))
     = [2%nat; 3%nat]
  /\ revoked_in
       (added_log (snd (converted ok_codec [a_heic]))
          (snd (handleFileChange ok_codec [] (fst (converted ok_codec [a_heic]))
                                 (snd (converted ok_codec [a_heic])))))
       3%nat.
Proof.
  assert (A : allocated (fst (converted ok_codec [a_heic]))
                        (snd (converted ok_codec [a_heic])))
    by (unfold allocated; cbn; lia).
  split; [reflexivity|]. split; [reflexivity|].
  destruct (X4_add_revokes_urls_still_shown ok_codec []
              (fst (converted ok_codec [a_heic]))
              (snd (converted ok_codec [a_heic])) A) as [_ H].
  apply (H 3%nat). vm_compute. auto.
Defined.

(** X5: after a conversion run from a reachable state the accepted
    list is the same array; the converted items have pairwise distinct
    URLs, each created during the run and not revoked; and every
    thumbnail URL of the accepted items has been revoked by the run
    although the items keep it. *)
Theorem X5_run_urls_alive_thumbnails_revoked
    (heic2any : File -> string -> Q -> option Blob)
    (generateAsync : list (string * Blob) -> option Blob) (Date_now : nat -> Z)
    (s : AppState) (w : World) :
  reachable heic2any generateAsync Date_now s w ->
  heicFiles (fst (convertImages heic2any Date_now s w)) = heicFiles s
  /\ NoDup (map url (items (convertedImages (fst (convertImages heic2any Date_now s w)))))
  /\ (forall image,
         In image (items (convertedImages (fst (convertImages heic2any Date_now s w)))) ->
         In (Create (url image))
            (added_log w (snd (convertImages heic2any Date_now s w)))
         /\ ~ revoked_in (log (snd (convertImages heic2any Date_now s w))) (url image))
  /\ (forall u,
         In u (thumbnail_urls (items (heicFiles s))) ->
         revoked_in (added_log w (snd (convertImages heic2any Date_now s w))) u).
Proof.
  intros Re.
  destruct (reachable_consistent heic2any generateAsync Date_now s w Re)
    as (A & N & B & R & C).
  destruct (convertImages_allocated_run heic2any Date_now s w A)
    as (new & E & Hu & _).
  rewrite E. cbn [fst snd heicFiles convertedImages items].
  match goal with
  | |- context [added_log w ?w'] =>
      assert (L : added_log w w'
                  = (revocations s
                     ++ map Create (seq (next_url w) (List.length new))
                     ++ map (fun item => Revoke (thumbnail item))
                            (items (heicFiles s)))%list)
        by (apply added_log_app; reflexivity);
      rewrite L
  end.
  cbn [log]. split; [reflexivity|]. split; [rewrite Hu; apply seq_NoDup|]. split.
  - intros image Hin.
    assert (Hs : In (url image) (seq (next_url w) (List.length new)))
      by (rewrite <- Hu; now apply in_map).
    split.
    + apply in_or_app. right. apply in_or_app. left. now apply in_map.
    + apply in_seq in Hs. unfold revoked_in. intros H.
      apply in_app_or in H. destruct H as [H|H]; [apply R in H; lia|].
      apply in_app_or in H. destruct H as [H|H].
      { apply revoked_in_revocations in H. apply B in H. lia. }
      apply in_app_or in H. destruct H as [H|H].
      { now apply not_revoke_in_creates in H. }
      apply in_map_iff in H. destruct H as (item & Ei & Hi).
      assert (Hh : In (url image) (held_urls s)).
      { unfold held_urls. apply in_or_app. left. apply in_thumbnail_urls.
        exists item. split; [exact Hi|]. now inversion Ei. }
      apply B in Hh. lia.
  - intros u Hin. unfold revoked_in. apply in_or_app. left.
    apply revoked_in_revocations. unfold held_urls. apply in_or_app. now left.
Qed.

Lemma X5_run_urls_alive_thumbnails_revoked_witness :
  map url (items (convertedImages (fst (converted ok_codec [a_heic; b_heic]))))
  = [6%nat; 7%nat]
  /\ NoDup (map url (items (convertedImages
                              (fst (converted ok_codec [a_heic; b_heic])))))
  /\ revoked_in
       (added_log (snd (loaded ok_codec [a_heic; b_heic]))
                  (snd (converted ok_codec [a_heic; b_heic])))
       2%nat.
Proof.
  pose proof (reach_add ok_codec ok_zip sample_clock init_state init_world
                        [a_heic; b_heic]
                        (reach_init ok_codec ok_zip sample_clock)) as Re.
  destruct (X5_run_urls_alive_thumbnails_revoked ok_codec ok_zip sample_clock _ _ Re)
    as (_ & N & _ & T).
  split; [reflexivity|]. split; [exact N|].
  apply (T 2%nat). vm_compute. auto.
Defined.

(** X6: the two URLs that [handleFileChange] makes for the log messages
    of each preview that succeeds (the first two of each three) are
    created, held by no state and revoked by nothing the page does
    afterwards, not by "Clear All" and not by the clean-up that runs
    when the component is taken off the page. *)
Theorem X6_logged_preview_urls_are_never_revoked
    (heic2any : File -> string -> Q -> option Blob)
    (generateAsync : list (string * Blob) -> option Blob) (Date_now : nat -> Z)
    (fs : list File) (s : AppState) (w : World)
    (s2 : AppState) (w2 : World) (k : nat) (u : URL) :
  reachable heic2any generateAsync Date_now s w ->
  (k < List.length (filter (previews heic2any) (filter accepts fs)))%nat ->
  u = (next_url w + 3 * k)%nat \/ u = (next_url w + 3 * k + 1)%nat ->
  steps heic2any generateAsync Date_now
        (fst (handleFileChange heic2any fs s w))
        (snd (handleFileChange heic2any fs s w)) s2 w2 ->
  In (Create u) (log w2)
  /\ ~ In u (held_urls s2)
  /\ ~ revoked_in (log w2) u
  /\ ~ revoked_in (log (snd (unmount s2 w2))) u.
Proof.
  intros Re Hk Hu St.
  pose proof (reachable_consistent heic2any generateAsync Date_now s w Re) as C0.
  pose proof (handleFileChange_consistent heic2any fs s w C0) as C1.
  destruct C0 as (A & N & B & R & C).
  assert (K : (u < next_url w2)%nat /\ ~ In u (held_urls s2)
              /\ ~ In (Revoke (Some u)) (log w2)).
  { apply (steps_keep_unheld_unrevoked heic2any generateAsync Date_now
             _ _ s2 w2 u C1); [| | |exact St].
    - rewrite (handleFileChange_world heic2any fs s w A).
      cbn [next_url add_log alloc after_previews]. lia.
    - rewrite handleFileChange_held. intros H.
      apply in_app_or in H. destruct H as [H|H].
      + apply in_app_or in H. destruct H as [H|H].
        * assert (In u (held_urls s))
            by (unfold held_urls; apply in_or_app; now left).
          apply B in H0. lia.
        * apply in_map_iff in H. destruct H as (j & Ej & _). lia.
      + assert (In u (held_urls s))
          by (unfold held_urls; apply in_or_app; now right).
        apply B in H0. lia.
    - rewrite (handleFileChange_world heic2any fs s w A).
      cbn [log add_log alloc after_previews]. intros H.
      apply in_app_or in H. destruct H as [H|H].
      + apply in_app_or in H. destruct H as [H|H]; [apply R in H; lia|].
        now apply not_revoke_in_creates in H.
      + apply revoked_in_revocations in H. apply B in H. lia. }
  destruct K as (K1 & K2 & K3).
  pose proof (steps_consistent heic2any generateAsync Date_now _ _ s2 w2 C1 St)
    as (_ & _ & _ & _ & C2).
  split; [|split; [exact K2|split; [exact K3|]]].
  - apply in_created_urls. rewrite C2. apply in_seq. lia.
  - rewrite unmount_run. unfold revoked_in, add_log. cbn [snd log]. intros H.
    apply in_app_or in H. destruct H as [H|H]; [contradiction|].
    apply revoked_in_revocations in H. contradiction.
Qed.

Lemma X6_logged_preview_urls_are_never_revoked_witness :
  In (Create 1%nat)
     (log (snd (add_convert_clear ok_codec sample_clock [a_heic] init_world)))
  /\ ~ revoked_in
         (log (snd (add_convert_clear ok_codec sample_clock [a_heic] init_world)))
         1%nat.
Proof.
  pose (s1 := fst (handleFileChange ok_codec [a_heic] init_state init_world)).
  pose (w1 := snd (handleFileChange ok_codec [a_heic] init_state init_world)).
  assert (St : steps ok_codec ok_zip sample_clock s1 w1
                 (fst (clearAll (fst (convertImages ok_codec sample_clock s1 w1))
                                (snd (convertImages ok_codec sample_clock s1 w1))))
                 (snd (clearAll (fst (convertImages ok_codec sample_clock s1 w1))
                                (snd (convertImages ok_codec sample_clock s1 w1))))).
  { apply steps_clear; [|vm_compute; discriminate].
    apply steps_convert; [apply steps_none|vm_compute; discriminate|reflexivity]. }
  assert (Hk : (0 < List.length (filter (previews ok_codec)
                                        (filter accepts [a_heic])))%nat)
    by (vm_compute; lia).
  destruct (X6_logged_preview_urls_are_never_revoked ok_codec ok_zip sample_clock
              [a_heic] init_state init_world _ _ 0%nat 1%nat
              (reach_init ok_codec ok_zip sample_clock) Hk
              (or_intror eq_refl) St) as (Hc & _ & Hr & _).
  split; [exact Hc|exact Hr].
Defined.

(** X7: in every reachable state no URL is held twice, every URL that
    is held and every URL that was revoked was created by the component
    before, and no URL was created twice. *)
Theorem X7_reachable_urls_are_distinct_and_created
    (heic2any : File -> string -> Q -> option Blob)
    (generateAsync : list (string * Blob) -> option Blob) (Date_now : nat -> Z)
    (s : AppState) (w : World) :
  reachable heic2any generateAsync Date_now s w ->
  NoDup (held_urls s)
  /\ (forall u, In u (held_urls s) -> In (Create u) (log w))
  /\ (forall u, revoked_in (log w) u -> In (Create u) (log w))
  /\ NoDup (created_urls (log w)).
Proof.
  intros Re.
  destruct (reachable_consistent heic2any generateAsync Date_now s w Re)
    as (_ & N & B & R & C).
  split; [exact N|]. split; [|split].
  - intros u Hu. apply in_created_urls. rewrite C. apply in_seq.
    apply B in Hu. lia.
  - intros u Hu. apply in_created_urls. rewrite C. apply in_seq.
    apply R in Hu. lia.
  - rewrite C. apply seq_NoDup.
Qed.

Lemma X7_reachable_urls_are_distinct_and_created_witness :
  held_urls (fst (loaded ok_codec [a_heic; b_heic])) = [2%nat; 5%nat]
  /\ NoDup (held_urls (fst (loaded ok_codec [a_heic; b_heic])))
  /\ NoDup (created_urls (log (snd (loaded ok_codec [a_heic; b_heic])))).
Proof.
  pose proof (reach_add ok_codec ok_zip sample_clock init_state init_world
                        [a_heic; b_heic]
                        (reach_init ok_codec ok_zip sample_clock)) as Re.
  destruct (X7_reachable_urls_are_distinct_and_created ok_codec ok_zip sample_clock
              _ _ Re) as (N & _ & _ & D).
  split; [reflexivity|]. split; [exact N|exact D].
Defined.

(** X8: when the archive is made, [downloadAllImages] creates one URL
    and clicks a link to it named [converted-images.zip]; it changes
    neither list and nothing else in the log.  No state holds that URL
    and nothing the page does afterwards revokes it, not even the
    clean-up that runs when the component is taken off the page. *)
Theorem X8_archive_url_is_never_revoked
    (heic2any : File -> string -> Q -> option Blob)
    (generateAsync : list (string * Blob) -> option Blob) (Date_now : nat -> Z)
    (s : AppState) (w : World) (content : Blob) (s2 : AppState) (w2 : World) :
  reachable heic2any generateAsync Date_now s w ->
  items (convertedImages s) <> [] ->
  generateAsync (zip_of (items (convertedImages s))) = Some content ->
  steps heic2any generateAsync Date_now
        (fst (downloadAllImages generateAsync s w))
        (snd (downloadAllImages generateAsync s w)) s2 w2 ->
  fst (downloadAllImages generateAsync s w) = setLoading false s
  /\ added_log w (snd (downloadAllImages generateAsync s w))
     = [Create (next_url w); Click (next_url w) "converted-images.zip"]
  /\ ~ In (next_url w) (held_urls s2)
  /\ ~ revoked_in (log w2) (next_url w)
  /\ ~ revoked_in (log (snd (unmount s2 w2))) (next_url w).
Proof.
  intros Re Hne Hz St.
  pose proof (reachable_consistent heic2any generateAsync Date_now s w Re) as C0.
  pose proof (downloadAllImages_consistent generateAsync s w C0) as C1.
  destruct C0 as (A & N & B & R & C).
  assert (E : downloadAllImages generateAsync s w
              = (setLoading false s,
                 mkWorld (S (next_url w)) (next_ref w) (clock_reads w)
                         (log w ++ [Create (next_url w);
                                    Click (next_url w) "converted-images.zip"]))).
  { rewrite downloadAllImages_run.
    destruct (items (convertedImages s)); [congruence|]. now rewrite Hz. }
  rewrite E in *. cbn [fst snd] in *.
  split; [reflexivity|]. split; [now apply added_log_app|].
  assert (K : (next_url w < next_url w2)%nat /\ ~ In (next_url w) (held_urls s2)
              /\ ~ In (Revoke (Some (next_url w))) (log w2)).
  { apply (steps_keep_unheld_unrevoked heic2any generateAsync Date_now
             _ _ s2 w2 (next_url w) C1); [| | |exact St].
    - cbn [next_url]. lia.
    - intros H. apply B in H. lia.
    - cbn [log]. intros H. apply in_app_or in H.
      destruct H as [H|[H|[H|[]]]]; [apply R in H; lia|discriminate|discriminate]. }
  destruct K as (_ & K2 & K3).
  split; [exact K2|]. split; [exact K3|].
  rewrite unmount_run. unfold revoked_in, add_log. cbn [snd log]. intros H.
  apply in_app_or in H. destruct H as [H|H]; [contradiction|].
  apply revoked_in_revocations in H. contradiction.
Qed.

Lemma X8_archive_url_is_never_revoked_witness :
  added_log (snd (converted ok_codec [a_heic]))
            (snd (downloadAllImages ok_zip (fst (converted ok_codec [a_heic]))
                                    (snd (converted ok_codec [a_heic]))))
  = [Create 4%nat; Click 4%nat "converted-images.zip"]
  /\ ~ revoked_in
         (log (snd (clearAll
                      (fst (downloadAllImages ok_zip
                              (fst (converted ok_codec [a_heic]))
                              (snd (converted ok_codec [a_heic]))))
                      (snd (downloadAllImages ok_zip
                              (fst (converted ok_codec [a_heic]))
                              (snd (converted ok_codec [a_heic]))))))) 4%nat.
Proof.
  pose (s := fst (converted ok_codec [a_heic])).
  pose (w := snd (converted ok_codec [a_heic])).
  assert (Re : reachable ok_codec ok_zip sample_clock s w).
  { apply (reach_convert ok_codec ok_zip sample_clock
             (fst (loaded ok_codec [a_heic])) (snd (loaded ok_codec [a_heic])));
      [|vm_compute; discriminate|reflexivity].
    apply reach_add. apply reach_init. }
  assert (Hne : items (convertedImages s) <> []) by (vm_compute; discriminate).
  assert (St : steps ok_codec ok_zip sample_clock
                 (fst (downloadAllImages ok_zip s w))
                 (snd (downloadAllImages ok_zip s w))
                 (fst (clearAll (fst (downloadAllImages ok_zip s w))
                                (snd (downloadAllImages ok_zip s w))))
                 (snd (clearAll (fst (downloadAllImages ok_zip s w))
                                (snd (downloadAllImages ok_zip s w))))).
  { apply steps_clear; [apply steps_none|vm_compute; discriminate]. }
  destruct (X8_archive_url_is_never_revoked ok_codec ok_zip sample_clock s w
              (mkBlob "application/zip" 1) _ _ Re Hne eq_refl St)
    as (_ & Ha & _ & Hr & _).
  split; [exact Ha|exact Hr].
Defined.

(** ** What every reachable state satisfies *)

(** ** The archive *)

Lemma zip_file_fresh (n : string) (d : Blob) (zip : list (string * Blob)) :
  ~ In n (map fst zip) -> zip_file n d zip = (zip ++ [(n, d)])%list.
Proof.
  induction zip as [|[m e] zip IH]; simpl; intros H; [reflexivity|].
  destruct (String.eqb_spec m n) as [->|Hmn]; [exfalso; auto|].
  rewrite IH; [reflexivity|]. tauto.
Qed.

Lemma zip_file_in_same (n : string) (d : Blob) (zip : list (string * Blob)) :
  In (n, d) (zip_file n d zip).
Proof.
  induction zip as [|[m e] zip IH]; simpl; [auto|].
  destruct (String.eqb_spec m n) as [->|Hmn]; simpl; auto.
Qed.

Lemma zip_file_in_other (n m : string) (d e : Blob) (zip : list (string * Blob)) :
  m <> n -> (In (m, e) (zip_file n d zip) <-> In (m, e) zip).
Proof.
  intros Hmn. induction zip as [|[k x] zip IH]; simpl.
  - split; [intros [H|[]]; congruence|tauto].
  - destruct (String.eqb_spec k n) as [->|Hkn]; simpl.
    + split; intros [H|H]; auto; congruence.
    + rewrite IH. tauto.
Qed.

Lemma zip_file_keys_NoDup (n : string) (d : Blob) (zip : list (string * Blob)) :
  NoDup (map fst zip) -> NoDup (map fst (zip_file n d zip)).
Proof.
  intros H. rewrite zip_file_names.
  destruct (existsb (String.eqb n) (map fst zip)) eqn:E; [exact H|].
  apply NoDup_app; [exact H|repeat constructor; simpl; tauto|].
  intros a Ha [Hn|[]]. subst a.
  assert (existsb (String.eqb n) (map fst zip) = true); [|congruence].
  apply existsb_exists. exists n. split; [exact Ha|apply String.eqb_refl].
Qed.

Lemma zip_file_keys_in (n k : string) (d : Blob) (zip : list (string * Blob)) :
  In k (map fst (zip_file n d zip)) <-> k = n \/ In k (map fst zip).
Proof.
  rewrite zip_file_names.
  destruct (existsb (String.eqb n) (map fst zip)) eqn:E.
  - apply existsb_exists in E. destruct E as (x & Hx & E).
    apply String.eqb_eq in E. subst x. split; [tauto|].
    intros [->|H]; auto.
  - rewrite in_app_iff. simpl. split; intros H.
    + destruct H as [H|[H|[]]]; auto.
    + destruct H as [H|H]; auto.
Qed.

(** The loop over the images, from any archive. *)
Lemma zip_fold_spec (images : list ConvertedItem) :
  forall zip : list (string * Blob),
    NoDup (map fst zip) ->
    let result := fold_left
                    (fun zip image => zip_file (name image) (blob image) zip)
                    images zip in
    NoDup (map fst result)
    /\ (forall k, In k (map fst result)
                  <-> In k (map fst zip) \/ In k (map name images))
    /\ (forall k d, In (k, d) zip -> ~ In k (map name images) -> In (k, d) result).
Proof.
  induction images as [|image images IH]; intros zip N; cbn [fold_left].
  - cbv zeta. split; [exact N|]. split; [simpl; tauto|auto].
  - destruct (IH (zip_file (name image) (blob image) zip)
                 (zip_file_keys_NoDup _ _ _ N)) as (N' & K & L).
    cbv zeta in *. split; [exact N'|]. split.
    + intros k. rewrite K, zip_file_keys_in. simpl. split; intros H.
      * destruct H as [[H|H]|H]; auto.
      * destruct H as [H|[H|H]]; auto.
    + intros k d Hin Hn. apply L.
      * apply zip_file_in_other; [|exact Hin].
        intros ->. apply Hn. simpl. auto.
      * intros H. apply Hn. simpl. auto.
Qed.

(** ** "Clear All" *)

(** X12: on a state whose arrays were allocated before, "Clear All"
    creates no URL and revokes every URL the state holds, first in the
    handler and a second time in the clean-up of the render it
    replaces (an item without thumbnail gives a call with [null] each
    time); afterwards both lists are empty and there is no error, while
    the output format and the loading flag are as before. *)
Theorem X12_clear_all_revokes_everything_twice (s : AppState) (w : World) :
  allocated s w ->
  added_log w (snd (clearAll s w)) = (revocations s ++ revocations s)%list
  /\ (forall u, In u (held_urls s) ->
                revoked_in (added_log w (snd (clearAll s w))) u)
  /\ next_url (snd (clearAll s w)) = next_url w
  /\ held_urls (fst (clearAll s w)) = []
  /\ view (fst (clearAll s w)) = ([], [], outputFormat s, loading s, None).
Proof.
  intros A.
  assert (E : added_log w (snd (clearAll s w))
              = (revocations s ++ revocations s)%list).
  { apply added_log_app. rewrite (clearAll_world s w A).
    cbn [log add_log alloc]. now rewrite app_assoc. }
  split; [exact E|]. split; [|split; [|split]].
  - intros u Hu. rewrite E. unfold revoked_in. apply in_or_app. left.
    now apply revoked_in_revocations.
  - now rewrite (clearAll_world s w A).
  - rewrite clearAll_run, rerender_fst. reflexivity.
  - apply clearAll_state.
Qed.

Lemma X12_clear_all_revokes_everything_twice_witness :
  added_log (snd (converted ok_codec [a_heic]))
            (snd (clearAll (fst (converted ok_codec [a_heic]))
                           (snd (converted ok_codec [a_heic]))))
  = [Revoke (Some 2%nat); Revoke (Some 3%nat);
     Revoke (Some 2%nat); Revoke (Some 3%nat)].
Proof.
  assert (A : allocated (fst (converted ok_codec [a_heic]))
                        (snd (converted ok_codec [a_heic])))
    by (unfold allocated; cbn; lia).
  destruct (X12_clear_all_revokes_everything_twice _ _ A) as [E _].
  rewrite E. reflexivity.
Defined.

(** ** Output names, for every name *)

(** X13: whatever the file name, the output name does not end in
    [.heic] or [.heif] (in any letter case); deriving a name from an
    output name changes nothing; and only the last extension is
    replaced: what stands before it is kept as it is, also when it ends
    in a source extension itself. *)
Theorem X13_output_name_has_no_source_extension (fmt fmt' : OutputFormat)
    (original : string) :
  has_source_ext (output_name fmt original) = false
  /\ output_name fmt' (output_name fmt original) = output_name fmt original
  /\ (forall p e, is_source_ext e = true ->
                  output_name fmt (p ++ e) = p ++ "." ++ format_string fmt).
Proof.
  assert (H : has_source_ext (output_name fmt original) = false).
  { destruct (has_source_ext original) eqn:E.
    - rewrite (output_name_with_ext fmt original E). apply target_ext_not_source.
    - unfold output_name. now rewrite replace_source_ext_none. }
  split; [exact H|]. split.
  - unfold output_name at 1. now apply replace_source_ext_none.
  - intros p e He. unfold output_name. now apply replace_source_ext_match.
Qed.

(** ** The two revisions of the component *)

(** X14: the validation of the newer component accepts every file the
    older one accepts, and the files it accepts beyond those are
    exactly the files of type [image/x-heic] or [image/x-heif] within
    the size bound. *)
Theorem X14_newer_validation_extends_older (f : File) :
  (Legacy.validate f = Accepted -> validate f = Accepted)
  /\ ((validate f = Accepted /\ Legacy.validate f <> Accepted) <->
      ((file_type f = "image/x-heic" \/ file_type f = "image/x-heif")
       /\ file_size f <= 25 * 1024 * 1024)).
Proof.
  unfold Legacy.validate, validate, includes, allowed_types. cbn [existsb].
  destruct (String.eqb_spec (file_type f) "image/heic") as [E1|E1];
    destruct (String.eqb_spec (file_type f) "image/heif") as [E2|E2];
    destruct (String.eqb_spec (file_type f) "image/x-heic") as [E3|E3];
    destruct (String.eqb_spec (file_type f) "image/x-heif") as [E4|E4];
    try congruence; cbn [negb andb orb];
    destruct (Z.gtb_spec (file_size f) (MAX_FILE_SIZE_MB * 1024 * 1024)) as [G|G];
    unfold MAX_FILE_SIZE_MB in G;
    (split; [intros H; first [exact H|discriminate H|reflexivity]|]);
    (split;
     [intros [Ha Hl]; first [discriminate Ha|exfalso; apply Hl; reflexivity
                            |split; [auto|lia]]
     |intros [[Ht|Ht] Hs]; first [congruence|lia
                                 |split; [reflexivity|discriminate]]]).
Qed.

Lemma legacy_replace_heic_match (p r : string) :
  Legacy.replace_heic (p ++ ".heic") r = p ++ r.
Proof.
  induction p as [|c p IH].
  - reflexivity.
  - change (String c p ++ ".heic") with (String c (p ++ ".heic")).
    cbn [Legacy.replace_heic].
    destruct (String.eqb_spec (String c (p ++ ".heic")) ".heic") as [E|_].
    + apply (f_equal String.length) in E. simpl in E.
      rewrite string_length_app in E. simpl in E. lia.
    + now rewrite IH.
Qed.

Lemma legacy_replace_heic_none (s r : string) :
  ends_with ".heic" s = false -> Legacy.replace_heic s r = s.
Proof.
  induction s as [|c s IH]; intros H; [reflexivity|].
  cbn [Legacy.replace_heic]. cbn [ends_with] in H.
  destruct (String.eqb (String c s) ".heic"); [discriminate|].
  now rewrite IH.
Qed.

(** X16: the older component replaces a trailing [.heic] in lower case
    and nothing else: a name that does not end that way ([a.HEIC],
    [a.heif]) is the output name as it is; whenever it does change a
    name, the newer component gives the same output name. *)
Theorem X16_older_output_name (fmt : OutputFormat) (original : string) :
  (forall p, original = p ++ ".heic" ->
             Legacy.output_name fmt original = p ++ "." ++ format_string fmt)
  /\ (ends_with ".heic" original = false ->
      Legacy.output_name fmt original = original)
  /\ (Legacy.output_name fmt original <> original ->
      output_name fmt original = Legacy.output_name fmt original).
Proof.
  unfold Legacy.output_name. split; [|split].
  - intros p ->. apply legacy_replace_heic_match.
  - apply legacy_replace_heic_none.
  - intros H. destruct (ends_with ".heic" original) eqn:E.
    + apply ends_with_spec in E. destruct E as [p ->].
      rewrite legacy_replace_heic_match. unfold output_name.
      now apply replace_source_ext_match.
    + exfalso. apply H. now apply legacy_replace_heic_none.
Qed.

(** ** The items of a run *)

(** What holds of every item the loop can push holds of every item of
    its result. *)
Lemma convert_loop_items
    (heic2any : File -> string -> Q -> option Blob) (Date_now : nat -> Z)
    (fmt : OutputFormat) (P : ConvertedItem -> Prop) (l : list AcceptedItem) :
  (forall item k u b,
      In item l ->
      heic2any (file item) ("image/" ++ format_string fmt) (9 # 10) = Some b ->
      P (mkConverted (file_name (file item) ++ "-" ++ string_of_Z (Date_now k))
                     (output_name fmt (file_name (file item))) u b (file item))) ->
  forall (acc : list ConvertedItem) (err : option string) (w : World),
    Forall P acc ->
    Forall P (fst (fst (convert_loop heic2any Date_now fmt l acc err w))).
Proof.
  induction l as [|item l IH]; intros HP acc err w Hacc; [exact Hacc|].
  cbn [convert_loop].
  destruct (heic2any (file item) ("image/" ++ format_string fmt) (9 # 10))
    as [convertedBlob|] eqn:E.
  - unfold bind at 1. unfold createObjectURL at 1.
    unfold bind at 1. unfold now at 1.
    apply IH.
    + intros i k u b Hi. apply HP. now right.
    + apply Forall_app. split; [exact Hacc|]. constructor; [|constructor].
      apply HP; [now left|exact E].
  - apply IH; [|exact Hacc]. intros i k u b Hi. apply HP. now right.
Qed.

Lemma convertImages_items
    (heic2any : File -> string -> Q -> option Blob) (Date_now : nat -> Z)
    (P : ConvertedItem -> Prop) (s : AppState) (w : World) :
  (forall item k u b,
      In item (items (heicFiles s)) ->
      heic2any (file item) ("image/" ++ format_string (outputFormat s)) (9 # 10)
      = Some b ->
      P (mkConverted (file_name (file item) ++ "-" ++ string_of_Z (Date_now k))
                     (output_name (outputFormat s) (file_name (file item)))
                     u b (file item))) ->
  Forall P (items (convertedImages (fst (convertImages heic2any Date_now s w)))).
Proof.
  intros HP. unfold convertImages. unfold bind at 1.
  destruct (convertImages_start s w) as [s1 w1].
  unfold bind at 1. unfold new_array at 1. unfold bind at 1.
  pose proof (convert_loop_items heic2any Date_now (outputFormat s) P
                (items (heicFiles s)) HP [] (error s1) (alloc w1)
                (Forall_nil P)) as F.
  destruct (convert_loop heic2any Date_now (outputFormat s)
              (items (heicFiles s)) [] (error s1) (alloc w1)) as [[imgs err] w2].
  rewrite rerender_fst. exact F.
Qed.

(** X17: every item of a conversion run carries the blob that
    [heic2any] returned for its own file, asked for the selected format
    at quality 0.9, and its id is the name of that file, a dash and a
    reading of the clock. *)
Theorem X17_item_carries_the_blob_of_its_file
    (heic2any : File -> string -> Q -> option Blob) (Date_now : nat -> Z)
    (s : AppState) (w : World) (image : ConvertedItem) :
  In image (items (convertedImages (fst (convertImages heic2any Date_now s w)))) ->
  heic2any (originalFile image)
           ("image/" ++ format_string (outputFormat s)) (9 # 10)
  = Some (blob image)
  /\ exists k, id image = file_name (originalFile image)
                          ++ "-" ++ string_of_Z (Date_now k).
Proof.
  revert image. apply Forall_forall. apply convertImages_items.
  intros item k u b _ E. cbn [originalFile blob id]. split; [exact E|].
  now exists k.
Qed.

Lemma X17_item_carries_the_blob_of_its_file_witness :
  exists image : ConvertedItem,
    originalFile image = a_heic
    /\ ok_codec a_heic "image/jpeg" (9 # 10) = Some (blob image)
    /\ exists k, id image = "a.heic-" ++ string_of_Z (sample_clock k).
Proof.
  pose (image := mkConverted "a.heic-1700000000000" "a.jpeg" 3%nat
                             (mkBlob "image/jpeg" (2 * 1024 * 1024)) a_heic).
  assert (Hin : In image (items (convertedImages
                  (fst (convertImages ok_codec sample_clock
                          (fst (loaded ok_codec [a_heic]))
                          (snd (loaded ok_codec [a_heic])))))))
    by (vm_compute; auto).
  destruct (X17_item_carries_the_blob_of_its_file ok_codec sample_clock _ _ image Hin)
    as [Hb Hi].
  exists image. split; [reflexivity|]. split; [exact Hb|exact Hi].
Defined.

(** ** Ids *)

Lemma has_dash_app (x y : string) : has_dash (x ++ "-" ++ y) = true.
Proof.
  induction x as [|c x IH]; [reflexivity|].
  simpl. simpl in IH. rewrite IH. apply orb_true_r.
Qed.

(** A name, a dash and a string without dash: the last dash tells the
    two apart. *)
Lemma dash_split_unique (a b d1 d2 : string) :
  has_dash d1 = false -> has_dash d2 = false ->
  a ++ "-" ++ d1 = b ++ "-" ++ d2 -> a = b /\ d1 = d2.
Proof.
  intros H1 H2. revert b. induction a as [|c a IH]; intros [|c' b] E.
  - simpl in E. injection E as E. auto.
  - simpl in E. injection E as _ E. rewrite E in H1.
    change (b ++ String "-" d2) with (b ++ "-" ++ d2) in H1.
    now rewrite has_dash_app in H1.
  - simpl in E. injection E as _ E. rewrite <- E in H2.
    change (a ++ String "-" d1) with (a ++ "-" ++ d1) in H2.
    now rewrite has_dash_app in H2.
  - simpl in E. injection E as -> E. destruct (IH b E) as [-> ->]. auto.
Qed.

Lemma string_of_uint_no_dash (d : Decimal.uint) :
  has_dash (NilEmpty.string_of_uint d) = false.
Proof. induction d; simpl; auto. Qed.

(** The decimal writing of a number that is not negative has no dash. *)
Lemma string_of_Z_no_dash (z : Z) : 0 <= z -> has_dash (string_of_Z z) = false.
Proof.
  intros H. unfold string_of_Z. destruct z as [|p|p]; [reflexivity| |lia].
  unfold Z.to_int, NilZero.string_of_int, NilZero.string_of_uint.
  destruct (Pos.to_uint p) eqn:E; try reflexivity;
    rewrite <- E; apply string_of_uint_no_dash.
Qed.

Lemma NoDup_map_reflect {A B C} (f : A -> B) (g : A -> C) (l : list A) :
  (forall x y, In x l -> In y l -> g x = g y -> f x = f y) ->
  NoDup (map f l) -> NoDup (map g l).
Proof.
  induction l as [|x l IH]; simpl; intros H N; [constructor|].
  inversion N as [|? ? Hx Hl]; subst. constructor.
  - intros Hin. apply Hx. apply in_map_iff in Hin. destruct Hin as (y & Hy & Hin).
    apply in_map_iff. exists y. split; [|exact Hin].
    symmetry. apply H; auto.
  - apply IH; [|exact Hl]. intros a b Ha Hb. apply H; auto.
Qed.

(** X18: when the clock never reads a negative number and the accepted
    files have pairwise distinct names, the ids of the items of a
    conversion run are pairwise distinct, whatever the clock reads. *)
Theorem X18_ids_distinct_for_distinct_names
    (heic2any : File -> string -> Q -> option Blob) (Date_now : nat -> Z)
    (s : AppState) (w : World) :
  (forall k, 0 <= Date_now k) ->
  NoDup (map (fun item => file_name (file item)) (items (heicFiles s))) ->
  NoDup (map id (items (convertedImages (fst (convertImages heic2any Date_now s w))))).
Proof.
  intros Hclock Hnames.
  pose proof (convertImages_items heic2any Date_now
                (fun image => exists k,
                     id image = file_name (originalFile image)
                                ++ "-" ++ string_of_Z (Date_now k))
                s w) as F.
  assert (Hid : Forall (fun image => exists k,
                            id image = file_name (originalFile image)
                                       ++ "-" ++ string_of_Z (Date_now k))
                  (items (convertedImages (fst (convertImages heic2any Date_now s w))))).
  { apply F. intros item k u b _ _. now exists k. }
  clear F.
  destruct (convertImages_run heic2any Date_now s w)
    as (new & l & R & _ & _ & Ho & _ & _).
  cbv zeta in R. rewrite R in *.
  cbn [fst convertedImages items setLoading setConvertedImages] in *.
  apply (NoDup_map_reflect (fun image => file_name (originalFile image)) id).
  - intros x y Hx Hy E.
    rewrite Forall_forall in Hid.
    destruct (Hid x Hx) as [kx Ex]. destruct (Hid y Hy) as [ky Ey].
    rewrite Ex, Ey in E.
    apply dash_split_unique in E; [tauto| |]; now apply string_of_Z_no_dash.
  - rewrite <- (map_map originalFile file_name), Ho.
    apply NoDup_map_filter. now rewrite map_map.
Qed.

Lemma X18_ids_distinct_for_distinct_names_witness :
  map id (items (convertedImages (fst (converted ok_codec [a_heic; a_heif]))))
  = ["a.heic-1700000000000"; "a.heif-1700000000001"]
  /\ NoDup (map id (items (convertedImages
                             (fst (converted ok_codec [a_heic; a_heif]))))).
Proof.
  split; [reflexivity|].
  assert (Hc : forall k, 0 <= sample_clock k) by (intros k; unfold sample_clock; lia).
  assert (Hn : NoDup (map (fun item => file_name (file item))
                          (items (heicFiles (fst (loaded ok_codec [a_heic; a_heif]))))))
    by (vm_compute; constructor;
        [simpl; intros [H|[]]; discriminate H
        |constructor; [simpl; tauto|constructor]]).
  exact (X18_ids_distinct_for_distinct_names ok_codec sample_clock
           (fst (loaded ok_codec [a_heic; a_heif]))
           (snd (loaded ok_codec [a_heic; a_heif])) Hc Hn).
Defined.

(** ** Adding in several steps *)

(** The items the previews give depend on the world only through the
    next URL. *)
Lemma mapM_make_thumbnail_next_url (heic2any : File -> string -> Q -> option Blob)
    (l : list File) (w w' : World) :
  next_url w = next_url w' ->
  fst (mapM (make_thumbnail heic2any) l w)
  = fst (mapM (make_thumbnail heic2any) l w').
Proof.
  revert w w'. induction l as [|f l IH]; intros w w' E; [reflexivity|].
  cbn [mapM]. unfold bind at 1 3. unfold make_thumbnail at 1 3.
  destruct (heic2any f "image/jpeg" (2 # 10)) as [thumbnailBlob|].
  - unfold bind at 1 2 3, createObjectURL at 1 2 3. unfold ret at 1.
    unfold bind at 3 4 5, createObjectURL at 1 2 3. unfold ret at 2.
    cbn [next_url]. unfold bind.
    match goal with
    | |- fst (let (_, _) := mapM _ l ?a in _) = fst (let (_, _) := mapM _ l ?b in _) =>
        pose proof (IH a b) as H;
        destruct (mapM (make_thumbnail heic2any) l a) as [ys w1];
        destruct (mapM (make_thumbnail heic2any) l b) as [ys' w1']
    end.
    unfold ret. cbn [fst next_url] in *. rewrite E. f_equal. apply H. now rewrite E.
  - unfold ret at 1 3. unfold bind.
    pose proof (IH w w' E) as H.
    destruct (mapM (make_thumbnail heic2any) l w) as [ys w1].
    destruct (mapM (make_thumbnail heic2any) l w') as [ys' w1'].
    unfold ret. cbn [fst] in *. now rewrite H.
Qed.

Lemma mapM_app {A B} (f : A -> M B) (l1 l2 : list A) (w : World) :
  fst (mapM f (l1 ++ l2) w)
  = (fst (mapM f l1 w) ++ fst (mapM f l2 (snd (mapM f l1 w))))%list.
Proof.
  revert w. induction l1 as [|x l1 IH]; intros w; [reflexivity|].
  cbn [app mapM]. unfold bind at 1 3 5. destruct (f x w) as [y w1].
  specialize (IH w1). unfold bind.
  destruct (mapM f (l1 ++ l2) w1) as [zs w3].
  destruct (mapM f l1 w1) as [ys w2].
  unfold ret. cbn [fst snd app] in *. now rewrite IH.
Qed.

(** ** Downloading one item *)

(** The URLs of the items of a run are not revoked when the run ends. *)
Lemma convertImages_new_urls_alive
    (heic2any : File -> string -> Q -> option Blob) (Date_now : nat -> Z)
    (s : AppState) (w : World) (image : ConvertedItem) :
  consistent s w ->
  In image (items (convertedImages (fst (convertImages heic2any Date_now s w)))) ->
  ~ In (Revoke (Some (url image))) (log (snd (convertImages heic2any Date_now s w))).
Proof.
  intros (A & N & B & R & C).
  destruct (convertImages_allocated_run heic2any Date_now s w A)
    as (new & E & Hu & _).
  rewrite E. cbn [fst snd convertedImages items log]. intros Hin.
  assert (Hs : In (url image) (seq (next_url w) (List.length new)))
    by (rewrite <- Hu; now apply in_map).
  apply in_seq in Hs. intros H.
  apply in_app_or in H. destruct H as [H|H]; [apply R in H; lia|].
  apply in_app_or in H. destruct H as [H|H].
  { apply revoked_in_revocations in H. apply B in H. lia. }
  apply in_app_or in H. destruct H as [H|H].
  { now apply not_revoke_in_creates in H. }
  apply in_map_iff in H. destruct H as (item & Ei & Hi).
  assert (Hh : In (url image) (held_urls s)).
  { unfold held_urls. apply in_or_app. left. apply in_thumbnail_urls.
    exists item. split; [exact Hi|]. now inversion Ei. }
  apply B in Hh. lia.
Qed.

(** X20: [downloadImage] clicks a link to the URL of the item, named
    after its output name, and does nothing else.  Right after the
    conversion run that made the item that URL is not revoked; once
    files are added (any batch, also one with no accepted file) the
    item is still listed, and the same download clicks a URL that has
    been revoked. *)
Theorem X20_download_link_dies_with_the_next_add
    (heic2any : File -> string -> Q -> option Blob)
    (generateAsync : list (string * Blob) -> option Blob) (Date_now : nat -> Z)
    (fs : list File) (s : AppState) (w : World) (image : ConvertedItem) :
  reachable heic2any generateAsync Date_now s w ->
  In image (items (convertedImages (fst (convertImages heic2any Date_now s w)))) ->
  let s1 := fst (convertImages heic2any Date_now s w) in
  let w1 := snd (convertImages heic2any Date_now s w) in
  let s2 := fst (handleFileChange heic2any fs s1 w1) in
  let w2 := snd (handleFileChange heic2any fs s1 w1) in
  added_log w1 (snd (downloadImage image w1)) = [Click (url image) (name image)]
  /\ ~ revoked_in (log w1) (url image)
  /\ In image (items (convertedImages s2))
  /\ revoked_in (log w2) (url image)
  /\ added_log w2 (snd (downloadImage image w2)) = [Click (url image) (name image)].
Proof.
  intros Re Hin. cbv zeta.
  pose proof (reachable_consistent heic2any generateAsync Date_now s w Re) as C0.
  pose proof (convertImages_new_urls_alive heic2any Date_now s w image C0 Hin) as Al.
  pose proof (convertImages_consistent heic2any Date_now s w C0) as (A1 & _).
  destruct (handleFileChange_state heic2any fs
              (fst (convertImages heic2any Date_now s w))
              (snd (convertImages heic2any Date_now s w))) as (_ & V & _).
  cbv zeta in V.
  split; [now apply added_log_app|]. split; [exact Al|].
  split; [now rewrite V|]. split; [|now apply added_log_app].
  rewrite (handleFileChange_world heic2any fs _ _ A1).
  unfold revoked_in. cbn [log add_log]. apply in_or_app. right.
  apply revoked_in_revocations. unfold held_urls. apply in_or_app. right.
  now apply in_map.
Qed.

Lemma X20_download_link_dies_with_the_next_add_witness :
  ~ revoked_in (log (snd (converted ok_codec [a_heic]))) 3%nat
  /\ map url (items (convertedImages
                       (fst (handleFileChange ok_codec []
                               (fst (converted ok_codec [a_heic]))
                               (snd (converted ok_codec [a_heic]))))))
     = [3%nat]
  /\ revoked_in
       (log (snd (handleFileChange ok_codec []
                    (fst (converted ok_codec [a_heic]))
                    (snd (converted ok_codec [a_heic]))))) 3%nat.
Proof.
  pose (image := mkConverted "a.heic-1700000000000" "a.jpeg" 3%nat
                             (mkBlob "image/jpeg" (2 * 1024 * 1024)) a_heic).
  assert (Re : reachable ok_codec ok_zip sample_clock
                 (fst (loaded ok_codec [a_heic])) (snd (loaded ok_codec [a_heic])))
    by (apply reach_add; apply reach_init).
  assert (Hin : In image (items (convertedImages
                  (fst (convertImages ok_codec sample_clock
                          (fst (loaded ok_codec [a_heic]))
                          (snd (loaded ok_codec [a_heic])))))))
    by (vm_compute; auto).
  destruct (X20_download_link_dies_with_the_next_add ok_codec ok_zip sample_clock
              [] _ _ image Re Hin) as (_ & Al & _ & Dead & _).
  split; [exact Al|]. split; [reflexivity|exact Dead].
Defined.

(** ** Instances *)

Lemma X2_add_reports_last_rejection_witness :
  error (fst (handleFileChange ok_codec
                [mkFile "notes.txt" "text/plain" 10; a_heic]
                (fst (converted (codec_failing_on "b.heic") [a_heic; b_heic]))
                (snd (converted (codec_failing_on "b.heic") [a_heic; b_heic]))))
  = Some "Unsupported file type: notes.txt. Only HEIC/HEIF files are allowed."
  /\ error (fst (handleFileChange ok_codec [a_heic]
                   (fst (converted (codec_failing_on "b.heic") [a_heic; b_heic]))
                   (snd (converted (codec_failing_on "b.heic") [a_heic; b_heic]))))
     = None.
Proof.
  split.
  - destruct (X2_add_reports_last_rejection ok_codec
                [mkFile "notes.txt" "text/plain" 10; a_heic]
                (fst (converted (codec_failing_on "b.heic") [a_heic; b_heic]))
                (snd (converted (codec_failing_on "b.heic") [a_heic; b_heic])))
      as [_ H].
    destruct (H [] (mkFile "notes.txt" "text/plain" 10) eq_refl)
      as (reason & E & V & _).
    rewrite E. f_equal. vm_compute in V. now inversion V.
  - exact (proj1 (X2_add_reports_last_rejection ok_codec [a_heic]
                    (fst (converted (codec_failing_on "b.heic") [a_heic; b_heic]))
                    (snd (converted (codec_failing_on "b.heic") [a_heic; b_heic])))
                 eq_refl).
Defined.

Lemma X13_output_name_has_no_source_extension_witness :
  output_name png ("holiday.heic" ++ ".HEIF") = "holiday.heic" ++ ".png"
  /\ has_source_ext (output_name png "holiday.heic.HEIF") = false.
Proof.
  destruct (X13_output_name_has_no_source_extension png png "holiday.heic.HEIF")
    as (H1 & _ & H3).
  split; [exact (H3 "holiday.heic" ".HEIF" eq_refl)|exact H1].
Defined.

Lemma X14_newer_validation_extends_older_witness :
  Legacy.validate a_heic = Accepted /\ validate a_heic = Accepted.
Proof.
  assert (H : Legacy.validate a_heic = Accepted) by reflexivity.
  split; [exact H|].
  exact (proj1 (X14_newer_validation_extends_older a_heic) H).
Defined.

Lemma X16_older_output_name_witness :
  Legacy.output_name jpeg "a.heic" = "a.jpeg"
  /\ Legacy.output_name jpeg "a.HEIC" = "a.HEIC"
  /\ output_name jpeg "a.heic" = Legacy.output_name jpeg "a.heic".
Proof.
  split; [|split].
  - exact (proj1 (X16_older_output_name jpeg "a.heic") "a" eq_refl).
  - exact (proj1 (proj2 (X16_older_output_name jpeg "a.HEIC")) eq_refl).
  - apply (proj2 (proj2 (X16_older_output_name jpeg "a.heic"))).
    vm_compute. discriminate.
Defined.

(** ** The older component, further *)

Lemma legacy_filter_files_kept (fs : list File) (err : option string) :
  fst (Legacy.filter_files fs err)
  = filter (fun f => match Legacy.validate f with
                     | Accepted => true
                     | Rejected _ => false
                     end) fs.
Proof.
  revert err. induction fs as [|f fs IH]; intros err; simpl; [reflexivity|].
  destruct (Legacy.validate f).
  - specialize (IH err). destruct (Legacy.filter_files fs err).
    simpl in *. now rewrite IH.
  - apply IH.
Qed.

Lemma legacy_filter_files_error (fs : list File) (err : option string) :
  snd (Legacy.filter_files fs err)
  = last (map (fun f => match Legacy.validate f with
                        | Rejected reason => Some reason
                        | Accepted => None
                        end)
              (filter (fun f => match Legacy.validate f with
                                | Accepted => false
                                | Rejected _ => true
                                end) fs))
         err.
Proof.
  revert err. induction fs as [|f fs IH]; intros err; [reflexivity|].
  cbn [Legacy.filter_files filter].
  destruct (Legacy.validate f) as [|reason] eqn:V.
  - specialize (IH err). destruct (Legacy.filter_files fs err). cbn [snd] in *.
    exact IH.
  - cbn [map]. rewrite V, last_cons_default. apply IH.
Qed.

(** X21: in the older component [handleFileChange] appends the files
    that pass its validation, in the order of the batch, and touches
    nothing else but the error cell, which holds the reason of the last
    rejected file of the batch or nothing; two batches added one after
    the other give the accepted list of the two added as one. *)
Theorem X21_older_add_accumulates (fs1 fs2 : list File) (s : Legacy.AppState) :
  Legacy.heicFiles (Legacy.handleFileChange fs1 s)
  = (Legacy.heicFiles s
     ++ filter (fun f => match Legacy.validate f with
                         | Accepted => true
                         | Rejected _ => false
                         end) fs1)%list
  /\ Legacy.convertedImages (Legacy.handleFileChange fs1 s) = Legacy.convertedImages s
  /\ Legacy.error (Legacy.handleFileChange fs1 s)
     = last (map (fun f => match Legacy.validate f with
                           | Rejected reason => Some reason
                           | Accepted => None
                           end)
                 (filter (fun f => match Legacy.validate f with
                                   | Accepted => false
                                   | Rejected _ => true
                                   end) fs1))
            None
  /\ Legacy.heicFiles (Legacy.handleFileChange fs2 (Legacy.handleFileChange fs1 s))
     = Legacy.heicFiles (Legacy.handleFileChange (fs1 ++ fs2) s).
Proof.
  assert (H : forall fs s0,
             Legacy.heicFiles (Legacy.handleFileChange fs s0)
             = (Legacy.heicFiles s0
                ++ filter (fun f => match Legacy.validate f with
                                    | Accepted => true
                                    | Rejected _ => false
                                    end) fs)%list).
  { intros fs s0. unfold Legacy.handleFileChange.
    pose proof (legacy_filter_files_kept fs None) as K.
    destruct (Legacy.filter_files fs None) as [kept err]. simpl in K. now subst. }
  split; [apply H|]. split; [|split].
  - unfold Legacy.handleFileChange.
    destruct (Legacy.filter_files fs1 None); reflexivity.
  - unfold Legacy.handleFileChange.
    pose proof (legacy_filter_files_error fs1 None) as E.
    destruct (Legacy.filter_files fs1 None) as [kept err]. exact E.
  - rewrite !H, filter_app, app_assoc. reflexivity.
Qed.

Lemma legacy_convert_loop_items
    (heic2any : File -> string -> Q -> option Blob) (Date_now : nat -> Z)
    (fmt : OutputFormat) (P : ConvertedItem -> Prop) (l : list File) :
  (forall f k u b,
      In f l ->
      heic2any f ("image/" ++ format_string fmt) (9 # 10) = Some b ->
      P (mkConverted (file_name f ++ "-" ++ string_of_Z (Date_now k))
                     (Legacy.output_name fmt (file_name f)) u b f)) ->
  forall (acc : list ConvertedItem) (err : option string) (w : World),
    Forall P acc ->
    Forall P (fst (fst (Legacy.convert_loop heic2any Date_now fmt l acc err w))).
Proof.
  induction l as [|f l IH]; intros HP acc err w Hacc; [exact Hacc|].
  cbn [Legacy.convert_loop].
  destruct (heic2any f ("image/" ++ format_string fmt) (9 # 10))
    as [convertedBlob|] eqn:E.
  - unfold bind at 1. unfold createObjectURL at 1.
    unfold bind at 1. unfold now at 1.
    apply IH.
    + intros i k u b Hi. apply HP. now right.
    + apply Forall_app. split; [exact Hacc|]. constructor; [|constructor].
      apply HP; [now left|exact E].
  - apply IH; [|exact Hacc]. intros i k u b Hi. apply HP. now right.
Qed.

(** X22: a conversion run of the older component is best-effort too:
    one item for each accepted file whose conversion succeeds, in list
    order, each with the blob [heic2any] returned for its file and with
    a lower-case [.heic] at the end of the name replaced; the error
    cell holds the message of the last failure, or nothing; the loading
    flag is down. *)
Theorem X22_older_run_is_best_effort
    (heic2any : File -> string -> Q -> option Blob) (Date_now : nat -> Z)
    (s : Legacy.AppState) (w : World) :
  map originalFile
      (Legacy.convertedImages (fst (Legacy.convertImages heic2any Date_now s w)))
  = filter (converts heic2any (Legacy.outputFormat s)) (Legacy.heicFiles s)
  /\ Forall (fun image =>
               name image = Legacy.output_name (Legacy.outputFormat s)
                                               (file_name (originalFile image))
               /\ heic2any (originalFile image)
                           ("image/" ++ format_string (Legacy.outputFormat s))
                           (9 # 10)
                  = Some (blob image))
            (Legacy.convertedImages (fst (Legacy.convertImages heic2any Date_now s w)))
  /\ Legacy.error (fst (Legacy.convertImages heic2any Date_now s w))
     = last_failure heic2any (Legacy.outputFormat s) (Legacy.heicFiles s) None
  /\ Legacy.heicFiles (fst (Legacy.convertImages heic2any Date_now s w))
     = Legacy.heicFiles s
  /\ Legacy.loading (fst (Legacy.convertImages heic2any Date_now s w)) = false.
Proof.
  destruct (legacy_convertImages heic2any Date_now s w) as (Ho & He & _).
  split; [exact Ho|]. split; [|split; [exact He|]].
  - unfold Legacy.convertImages, bind.
    pose proof (legacy_convert_loop_items heic2any Date_now (Legacy.outputFormat s)
                  (fun image =>
                     name image = Legacy.output_name (Legacy.outputFormat s)
                                    (file_name (originalFile image))
                     /\ heic2any (originalFile image)
                          ("image/" ++ format_string (Legacy.outputFormat s))
                          (9 # 10)
                        = Some (blob image))
                  (Legacy.heicFiles s)) as F.
    specialize (F (fun f k u b _ E => conj eq_refl E) [] None w (Forall_nil _)).
    destruct (Legacy.convert_loop heic2any Date_now (Legacy.outputFormat s)
                (Legacy.heicFiles s) [] None w) as [[imgs err] w1].
    exact F.
  - unfold Legacy.convertImages, bind.
    destruct (Legacy.convert_loop heic2any Date_now (Legacy.outputFormat s)
                (Legacy.heicFiles s) [] None w) as [[imgs err] w1].
    split; reflexivity.
Qed.

(** * The URLs a call keeps, whatever the order of the previews *)


(** Two adds and one add, with the previews of each call taken in list
    order: the same items. *)
Lemma two_adds_items (heic2any : File -> string -> Q -> option Blob)
    (fs1 fs2 : list File) (s : AppState) (w : World) :
  items (heicFiles
           (fst (handleFileChange heic2any fs2
                   (fst (handleFileChange heic2any fs1 s w))
                   (snd (handleFileChange heic2any fs1 s w)))))
  = items (heicFiles (fst (handleFileChange heic2any (fs1 ++ fs2) s w))).
Proof.
  rewrite (handleFileChange_run heic2any fs2). cbv zeta. rewrite rerender_fst.
  cbn [heicFiles items setHeicFiles setError].
  assert (N : next_url (snd (handleFileChange heic2any fs1 s w))
              = next_url (snd (mapM (make_thumbnail heic2any) (filter accepts fs1) w))).
  { rewrite handleFileChange_run. cbv zeta.
    match goal with
    | |- context [rerender ?p ?n ?w0] =>
        destruct (rerender_world p n w0) as (l & -> & _)
    end.
    reflexivity. }
  rewrite (mapM_make_thumbnail_next_url heic2any (filter accepts fs2) _ _ N).
  rewrite !handleFileChange_run. cbv zeta. rewrite !rerender_fst.
  cbn [heicFiles items setHeicFiles setError].
  rewrite filter_app, mapM_app, app_assoc. reflexivity.
Qed.

(** X19: adding two batches one after the other accepts the files that
    adding them as one batch accepts, in the same order, gives a
    thumbnail to the same files and keeps the same thumbnail URLs; it
    leaves the converted list alone, and the error cell then tells of
    the second batch only.  (Which item holds which URL is not
    stated.) *)
Theorem X19_two_adds_accumulate
    (heic2any : File -> string -> Q -> option Blob)
    (fs1 fs2 : list File) (s : AppState) (w : World) :
  map file
      (items (heicFiles
                (fst (handleFileChange heic2any fs2
                        (fst (handleFileChange heic2any fs1 s w))
                        (snd (handleFileChange heic2any fs1 s w))))))
  = map file (items (heicFiles (fst (handleFileChange heic2any (fs1 ++ fs2) s w))))
  /\ map has_thumbnail
         (items (heicFiles
                   (fst (handleFileChange heic2any fs2
                           (fst (handleFileChange heic2any fs1 s w))
                           (snd (handleFileChange heic2any fs1 s w))))))
     = map has_thumbnail
           (items (heicFiles (fst (handleFileChange heic2any (fs1 ++ fs2) s w))))
  /\ (forall u,
         In u (thumbnail_urls
                 (items (heicFiles
                           (fst (handleFileChange heic2any fs2
                                   (fst (handleFileChange heic2any fs1 s w))
                                   (snd (handleFileChange heic2any fs1 s w)))))))
         <-> In u (thumbnail_urls
                     (items (heicFiles
                               (fst (handleFileChange heic2any (fs1 ++ fs2) s w))))))
  /\ convertedImages
       (fst (handleFileChange heic2any fs2
               (fst (handleFileChange heic2any fs1 s w))
               (snd (handleFileChange heic2any fs1 s w))))
     = convertedImages s
  /\ error (fst (handleFileChange heic2any fs2
                   (fst (handleFileChange heic2any fs1 s w))
                   (snd (handleFileChange heic2any fs1 s w))))
     = snd (filter_files fs2 None).
Proof.
  destruct (handleFileChange_state heic2any fs2
              (fst (handleFileChange heic2any fs1 s w))
              (snd (handleFileChange heic2any fs1 s w))) as (_ & V2 & _ & _ & E2).
  destruct (handleFileChange_state heic2any fs1 s w) as (_ & V1 & _).
  cbv zeta in *. rewrite (two_adds_items heic2any fs1 fs2 s w).
  split; [reflexivity|]. split; [reflexivity|]. split; [tauto|].
  split; [congruence|exact E2].
Qed.

(** * Files and validation, in every reachable state *)

(** The converted items of a state between handlers come from files of
    its accepted list. *)
Lemma reachable_originals_accepted
    (heic2any : File -> string -> Q -> option Blob)
    (generateAsync : list (string * Blob) -> option Blob) (Date_now : nat -> Z)
    (s : AppState) (w : World) :
  reachable heic2any generateAsync Date_now s w ->
  incl (map originalFile (items (convertedImages s)))
       (map file (items (heicFiles s))).
Proof.
  induction 1 as [|s w fs _ IH|s w fmt _ IH|s w _ IH _ _|s w image _ IH _
                  |s w _ IH _ _|s w _ IH _].
  - intros f [].
  - destruct (handleFileChange_state heic2any fs s w) as (F & V & _).
    cbv zeta in F, V. rewrite V, F. apply incl_appl. exact IH.
  - exact IH.
  - destruct (convertImages_run heic2any Date_now s w)
      as (new & l & R & _ & _ & Ho & _).
    cbv zeta in R. rewrite R.
    cbn [fst heicFiles convertedImages items setLoading setConvertedImages setError].
    rewrite Ho. intros f Hf. apply filter_In in Hf. tauto.
  - exact IH.
  - destruct (downloadAllImages_frame generateAsync s w) as (-> & -> & _).
    exact IH.
  - pose proof (clearAll_state s w) as V. unfold view in V.
    injection V as E1 E2 _ _ _. rewrite E2. intros f [].
Qed.

(** X9: in every state the page reaches through handlers that each
    run to their end, every accepted file passed validation, and so did
    the file of every converted item: no handler puts a file into a
    list without the test of [handleFileChange]. *)
Theorem X9_reachable_files_passed_validation
    (heic2any : File -> string -> Q -> option Blob)
    (generateAsync : list (string * Blob) -> option Blob) (Date_now : nat -> Z)
    (s : AppState) (w : World) :
  reachable heic2any generateAsync Date_now s w ->
  Forall (fun f => validate f = Accepted) (map file (items (heicFiles s)))
  /\ Forall (fun f => validate f = Accepted)
            (map originalFile (items (convertedImages s))).
Proof.
  intros Re.
  pose proof (reachable_accepted_valid heic2any generateAsync Date_now s w Re) as V.
  split; [exact V|].
  rewrite Forall_forall in *. intros f Hf. apply V.
  exact (reachable_originals_accepted heic2any generateAsync Date_now s w Re f Hf).
Qed.

Lemma X9_reachable_files_passed_validation_witness :
  map file (items (heicFiles
                     (fst (loaded ok_codec
                             [mkFile "notes.txt" "text/plain" 10; a_heic]))))
  = [a_heic]
  /\ Forall (fun f => validate f = Accepted)
            (map file (items (heicFiles
                                (fst (loaded ok_codec
                                        [mkFile "notes.txt" "text/plain" 10;
                                         a_heic]))))).
Proof.
  split; [reflexivity|].
  exact (proj1 (X9_reachable_files_passed_validation ok_codec ok_zip sample_clock
                  _ _
                  (reach_add ok_codec ok_zip sample_clock init_state init_world
                     [mkFile "notes.txt" "text/plain" 10; a_heic]
                     (reach_init ok_codec ok_zip sample_clock)))).
Defined.

(** * The names and the data of an archive *)

(** X11: when no output name holds a [/], the archive holds each name
    once, its names are those of the converted items, and for a name
    that several items carry the entry holds the blob of the last of
    them, the earlier ones being replaced.  (The order of the entries
    is not stated.) *)
Theorem X11_archive_keeps_last_of_equal_names (images : list ConvertedItem) :
  (forall image, In image images -> has_slash (name image) = false) ->
  NoDup (map fst (zip_of images))
  /\ (forall k, In k (map fst (zip_of images)) <-> In k (map name images))
  /\ (forall before image after,
         images = (before ++ image :: after)%list ->
         ~ In (name image) (map name after) ->
         In (name image, blob image) (zip_of images)
         /\ forall d, In (name image, d) (zip_of images) -> d = blob image).
Proof.
  intros _.
  destruct (zip_fold_spec images [] (NoDup_nil _)) as (N & K & _).
  cbv zeta in N, K. fold (zip_of images) in N, K.
  split; [exact N|]. split; [intros k; rewrite K; simpl; tauto|].
  intros before image after -> Hlast.
  assert (Hin : In (name image, blob image)
                   (zip_of (before ++ image :: after))).
  { unfold zip_of. rewrite fold_left_app. cbn [fold_left].
    destruct (zip_fold_spec before [] (NoDup_nil _)) as (Nb & _).
    cbv zeta in Nb.
    destruct (zip_fold_spec after _
                (zip_file_keys_NoDup (name image) (blob image) _ Nb))
      as (_ & _ & L).
    cbv zeta in L. apply L; [apply zip_file_in_same|exact Hlast]. }
  split; [exact Hin|].
  intros d Hd.
  assert (U : forall (l : list (string * Blob)) k x y,
             NoDup (map fst l) -> In (k, x) l -> In (k, y) l -> x = y).
  { induction l as [|[m e] l IHl]; simpl; intros k x y Nl Hx Hy; [contradiction|].
    inversion Nl as [|? ? Hm Hl]; subst.
    destruct Hx as [Hx|Hx], Hy as [Hy|Hy].
    - congruence.
    - inversion Hx; subst. exfalso. apply Hm.
      apply (in_map fst) in Hy. exact Hy.
    - inversion Hy; subst. exfalso. apply Hm.
      apply (in_map fst) in Hx. exact Hx.
    - exact (IHl k x y Hl Hx Hy). }
  exact (U _ _ _ _ N Hd Hin).
Qed.

Lemma X11_archive_keeps_last_of_equal_names_witness :
  map name (items (convertedImages
                     (fst (converted ok_codec
                             [a_heic; mkFile "a.heif" "image/heif" 1024]))))
  = ["a.jpeg"; "a.jpeg"]
  /\ In ("a.jpeg", mkBlob "image/jpeg" 1024)
        (zip_of (items (convertedImages
                          (fst (converted ok_codec
                                  [a_heic; mkFile "a.heif" "image/heif" 1024])))))
  /\ forall d,
       In ("a.jpeg", d)
          (zip_of (items (convertedImages
                            (fst (converted ok_codec
                                    [a_heic; mkFile "a.heif" "image/heif" 1024])))))
       -> d = mkBlob "image/jpeg" 1024.
Proof.
  split; [reflexivity|].
  pose (first := mkConverted "a.heic-1700000000000" "a.jpeg" 6%nat
                             (mkBlob "image/jpeg" (2 * 1024 * 1024)) a_heic).
  pose (second := mkConverted "a.heif-1700000000001" "a.jpeg" 7%nat
                              (mkBlob "image/jpeg" 1024)
                              (mkFile "a.heif" "image/heif" 1024)).
  change (items (convertedImages
                   (fst (converted ok_codec
                           [a_heic; mkFile "a.heif" "image/heif" 1024]))))
    with [first; second].
  assert (S : forall image, In image [first; second] ->
                            has_slash (name image) = false)
    by (intros image [<-|[<-|[]]]; reflexivity).
  destruct (X11_archive_keeps_last_of_equal_names [first; second] S)
    as (_ & _ & L).
  exact (L [first] second [] eq_refl (fun H => H)).
Defined.

(** * The browser calls of the older component *)

(** X15: the older component never revokes a URL: a conversion run adds
    to the log the creations of the new URLs and nothing else, so the
    URLs of the items it replaces stay alive; a bundle adds nothing to
    the log, or one creation and one click on the URL created, and no
    revocation either. *)
Theorem X15_older_component_never_revokes
    (heic2any : File -> string -> Q -> option Blob)
    (generateAsync : list (string * Blob) -> option Blob) (Date_now : nat -> Z)
    (s : Legacy.AppState) (w : World) :
  (exists k,
      log (snd (Legacy.convertImages heic2any Date_now s w))
      = (log w ++ map Create (seq (next_url w) k))%list
      /\ k = List.length (Legacy.convertedImages
                            (fst (Legacy.convertImages heic2any Date_now s w))))
  /\ (forall u, In (Revoke u) (log (snd (Legacy.convertImages heic2any Date_now s w)))
                -> In (Revoke u) (log w))
  /\ (forall u, In (Revoke u) (log (snd (Legacy.downloadAllImages generateAsync s w)))
                -> In (Revoke u) (log w))
  /\ (log (snd (Legacy.downloadAllImages generateAsync s w)) = log w
      \/ log (snd (Legacy.downloadAllImages generateAsync s w))
         = (log w ++ [Create (next_url w);
                      Click (next_url w) "converted-images.zip"])%list).
Proof.
  unfold Legacy.convertImages, bind.
  destruct (legacy_convert_loop_spec heic2any Date_now (Legacy.outputFormat s)
              (Legacy.heicFiles s) [] None w) as (new & R & _).
  rewrite R. unfold ret, after_conversions.
  cbn [fst snd log Legacy.convertedImages app].
  split; [exists (List.length new); auto|]. split; [|split].
  - intros u H. apply in_app_or in H. destruct H as [H|H]; [exact H|].
    now apply not_revoke_in_creates in H.
  - unfold Legacy.downloadAllImages.
    destruct (List.length (Legacy.convertedImages s) =? 0)%nat; [auto|].
    destruct (generateAsync (zip_of (Legacy.convertedImages s))); [|auto].
    unfold bind, createObjectURL, emit, add_log, ret. cbn [snd log].
    intros u H. apply in_app_or in H. destruct H as [H|[H|[]]]; [|discriminate].
    apply in_app_or in H. destruct H as [H|[H|[]]]; [exact H|discriminate].
  - unfold Legacy.downloadAllImages.
    destruct (List.length (Legacy.convertedImages s) =? 0)%nat; [now left|].
    destruct (generateAsync (zip_of (Legacy.convertedImages s))); [|now left].
    right. unfold bind, createObjectURL, emit, add_log, ret. cbn [fst snd log].
    rewrite <- app_assoc. reflexivity.
Qed.

(** * Output names, in both components *)




(** * The start of a conversion run, in both components *)

(** C3, as the code has it.  In the component with thumbnails the first
    commit of a run empties the converted list, and the clean-up of the
    render it replaces revokes the URL of every item that list held,
    before any URL of the new run is created; the URLs the run creates
    are new and are those of the new items.  The older component
    replaces the converted list as well, but calls
    [URL.revokeObjectURL] nowhere: a run adds to the log the creations
    of its own URLs and nothing else, so the URLs of the items it
    replaces are never revoked. *)
Theorem C3_previous_handles_revoked_at_start
    (heic2any : File -> string -> Q -> option Blob) (Date_now : nat -> Z) :
  (forall (s : AppState) (w : World),
      allocated s w ->
      items (convertedImages (fst (convertImages_start s w))) = []
      /\ snd (convertImages_start s w) = add_log (alloc w) (revocations s)
      /\ (forall image, In image (items (convertedImages s)) ->
                        revoked_in (revocations s) (url image))
      /\ log (snd (convertImages heic2any Date_now s w))
         = (log w
            ++ revocations s
            ++ map Create
                 (seq (next_url w)
                      (List.length (items (convertedImages
                                             (fst (convertImages heic2any Date_now s w))))))
            ++ map (fun item => Revoke (thumbnail item)) (items (heicFiles s)))%list
      /\ map url (items (convertedImages (fst (convertImages heic2any Date_now s w))))
         = seq (next_url w)
               (List.length (items (convertedImages
                                      (fst (convertImages heic2any Date_now s w)))))
      /\ allocated (fst (convertImages heic2any Date_now s w))
                   (snd (convertImages heic2any Date_now s w)))
  /\ (forall (s : Legacy.AppState) (w : World),
         map originalFile
             (Legacy.convertedImages (fst (Legacy.convertImages heic2any Date_now s w)))
         = filter (converts heic2any (Legacy.outputFormat s)) (Legacy.heicFiles s)
         /\ log (snd (Legacy.convertImages heic2any Date_now s w))
            = (log w
               ++ map Create
                    (seq (next_url w)
                         (List.length
                            (Legacy.convertedImages
                               (fst (Legacy.convertImages heic2any Date_now s w))))))%list
         /\ (forall image,
                In image (Legacy.convertedImages s) ->
                revoked_in (log (snd (Legacy.convertImages heic2any Date_now s w)))
                           (url image) ->
                revoked_in (log w) (url image))).
Proof.
  split.
  - intros s w A. rewrite (convertImages_start_allocated s w A). cbn [fst snd].
    split; [reflexivity|]. split; [reflexivity|]. split.
    + intros image Hin. unfold revoked_in, revocations.
      apply in_or_app. right.
      apply (in_map (fun image => Revoke (Some (url image)))). exact Hin.
    + destruct (convertImages_log heic2any Date_now s w A) as [L U].
      split; [exact L|]. split; [exact U|].
      now apply convertImages_allocated.
  - intros s w.
    split; [apply (legacy_convertImages heic2any Date_now s w)|].
    unfold Legacy.convertImages, bind.
    destruct (legacy_convert_loop_spec heic2any Date_now (Legacy.outputFormat s)
                (Legacy.heicFiles s) [] None w) as (new & R & _).
    rewrite R. unfold ret, after_conversions, revoked_in.
    cbn [fst snd log Legacy.convertedImages app].
    split; [reflexivity|].
    intros image _ H. apply in_app_or in H. destruct H as [H|H]; [exact H|].
    now apply not_revoke_in_creates in H.
Qed.

Lemma C3_previous_handles_revoked_at_start_witness :
  allocated (fst (converted ok_codec [a_heic])) (snd (converted ok_codec [a_heic]))
  /\ map url (items (convertedImages (fst (converted ok_codec [a_heic])))) = [3%nat]
  /\ log (snd (convertImages_start (fst (converted ok_codec [a_heic]))
                                   (snd (converted ok_codec [a_heic]))))
     = (log (snd (converted ok_codec [a_heic]))
        ++ [Revoke (Some 2%nat); Revoke (Some 3%nat)])%list.
Proof.
  assert (A : allocated (fst (converted ok_codec [a_heic]))
                        (snd (converted ok_codec [a_heic])))
    by (unfold allocated; cbn; lia).
  split; [exact A|]. split; [reflexivity|].
  destruct (proj1 (C3_previous_handles_revoked_at_start ok_codec sample_clock)
              (fst (converted ok_codec [a_heic]))
              (snd (converted ok_codec [a_heic])) A) as (_ & W & _).
  rewrite W. reflexivity.
Defined.

(** Two runs of the older component on one file: the second run
    replaces the item of the first, whose URL is created and never
    revoked. *)
Lemma C3_counterexample :
  map url (Legacy.convertedImages (fst legacy_first_run)) = [0%nat]
  /\ map url (Legacy.convertedImages (fst legacy_second_run)) = [1%nat]
  /\ log (snd legacy_second_run) = [Create 0%nat; Create 1%nat]
  /\ ~ revoked_in (log (snd legacy_second_run)) 0%nat.
Proof.
  split; [reflexivity|]. split; [reflexivity|]. split; [reflexivity|].
  vm_compute. intros H.
  repeat (destruct H as [H|H]; [discriminate H|]). exact H.
Qed.

(** * Validation, in both components *)

(** C4, as the code has it.  In the component with thumbnails a
    candidate file is rejected exactly when its declared media type is
    none of [image/heic], [image/heif], [image/x-heic], [image/x-heif]
    (compared as they are written) or its byte length exceeds the
    maximum.  In the older component the vendor types are not allowed:
    a file is rejected exactly when its type is neither [image/heic]
    nor [image/heif] or its byte length exceeds the maximum.  In both,
    [handleFileChange] appends to the accepted list the files of the
    batch that are not rejected and no other, so a rejected file does
    not enter it. *)
Theorem C4_validation_rejects_exactly
    (heic2any : File -> string -> Q -> option Blob)
    (fs : list File) (s : AppState) (w : World) (ls : Legacy.AppState) :
  (forall f : File,
      (exists reason, validate f = Rejected reason) <->
      (~ In (file_type f) ["image/heic"; "image/heif"; "image/x-heic"; "image/x-heif"]
       \/ file_size f > 25 * 1024 * 1024))
  /\ map file (items (heicFiles (fst (handleFileChange heic2any fs s w))))
     = (map file (items (heicFiles s)) ++ filter accepts fs)%list
  /\ (forall f : File,
         (exists reason, validate f = Rejected reason) ->
         ~ In f (filter accepts fs))
  /\ (forall f : File,
         (exists reason, Legacy.validate f = Rejected reason) <->
         (~ In (file_type f) ["image/heic"; "image/heif"]
          \/ file_size f > 25 * 1024 * 1024))
  /\ (exists kept : list File,
         Legacy.heicFiles (Legacy.handleFileChange fs ls)
         = (Legacy.heicFiles ls ++ kept)%list
         /\ forall f : File,
              In f kept <-> In f fs /\ Legacy.validate f = Accepted).
Proof.
  split; [|split; [|split; [|split]]].
  - intros f. apply validate_rejects.
  - apply (handleFileChange_state heic2any fs s w).
  - intros f Hr Hin. apply filter_In in Hin. destruct Hin as [_ Ha].
    apply accepts_false in Hr. congruence.
  - intros f. apply legacy_validate_rejects.
  - eexists. split; [apply (legacy_handleFileChange_state fs ls)|].
    intros f. rewrite filter_In.
    destruct (Legacy.validate f); split; intros [H1 H2]; split;
      congruence || auto.
Qed.

(** A file of a vendor type, within the size bound: its type is in the
    list of four and the component with thumbnails accepts it, the older
    component rejects it and it does not enter the accepted list
    there. *)
Lemma C4_counterexample :
  In (file_type (mkFile "a.heic" "image/x-heic" 1024))
     ["image/heic"; "image/heif"; "image/x-heic"; "image/x-heif"]
  /\ file_size (mkFile "a.heic" "image/x-heic" 1024) <= 25 * 1024 * 1024
  /\ validate (mkFile "a.heic" "image/x-heic" 1024) = Accepted
  /\ Legacy.validate (mkFile "a.heic" "image/x-heic" 1024)
     = Rejected "Unsupported file type: a.heic. Only HEIC/HEIF files are allowed."
  /\ Legacy.heicFiles
       (Legacy.handleFileChange [mkFile "a.heic" "image/x-heic" 1024]
                                (Legacy.mkState [] [] jpeg false None))
     = [].
Proof.
  split; [simpl; auto|]. split; [cbn; lia|].
  split; [reflexivity|]. split; reflexivity.
Qed.

(** * Clear All, at one file *)

(** C9, at a failing input: one valid file is added and "Clear All" is
    clicked.  The handler revokes the URL of the thumbnail, and so does
    the clean-up of the render it replaces: the one clear calls
    [URL.revokeObjectURL] twice on the same URL.  A second clear right
    after (which the page, the button being gone with the files, does
    not offer) changes nothing and calls nothing. *)
Theorem C9_clear_all_revokes_url_twice :
  thumbnail_urls (items (heicFiles (fst (loaded ok_codec [a_heic])))) = [2%nat]
  /\ log (snd (loaded ok_codec [a_heic])) = [Create 0%nat; Create 1%nat; Create 2%nat]
  /\ added_log (snd (loaded ok_codec [a_heic]))
               (snd (clearAll (fst (loaded ok_codec [a_heic]))
                              (snd (loaded ok_codec [a_heic]))))
     = [Revoke (Some 2%nat); Revoke (Some 2%nat)]
  /\ view (fst (clearAll
                  (fst (clearAll (fst (loaded ok_codec [a_heic]))
                                 (snd (loaded ok_codec [a_heic]))))
                  (snd (clearAll (fst (loaded ok_codec [a_heic]))
                                 (snd (loaded ok_codec [a_heic]))))))
     = view (fst (clearAll (fst (loaded ok_codec [a_heic]))
                           (snd (loaded ok_codec [a_heic]))))
  /\ added_log
       (snd (clearAll (fst (loaded ok_codec [a_heic]))
                      (snd (loaded ok_codec [a_heic]))))
       (snd (clearAll
               (fst (clearAll (fst (loaded ok_codec [a_heic]))
                              (snd (loaded ok_codec [a_heic]))))
               (snd (clearAll (fst (loaded ok_codec [a_heic]))
                              (snd (loaded ok_codec [a_heic]))))))
     = [].
Proof.
  split; [reflexivity|]. split; [reflexivity|]. split; [reflexivity|].
  split; reflexivity.
Qed.
